(** * linksys-mon: device inventory, filtering and online/offline status

    A shallow embedding of [linksys_mon.py].  Python [str] values are
    modelled as [string] (text over [ascii]); [str.lower] and [str.upper]
    map the letters A-Z / a-z and leave every other character alone.
    The set returned by [get_online_macs] is a [gset string].  Code that
    can raise is written in the error monad [result]. *)

From Stdlib Require Import ZArith String Ascii List Bool Lia.
From stdpp Require Import base decidable option list sets gmap strings pretty.

Import ListNotations.
Local Open Scope string_scope.

(* ===================================================================== *)
(** ** Python string operations used by the program *)

Module Str.

Definition is_upper (c : ascii) : bool :=
  let n := nat_of_ascii c in (65 <=? n)%nat && (n <=? 90)%nat.

Definition is_lower (c : ascii) : bool :=
  let n := nat_of_ascii c in (97 <=? n)%nat && (n <=? 122)%nat.

Definition lower_char (c : ascii) : ascii :=
  if is_upper c then ascii_of_nat (nat_of_ascii c + 32) else c.

Definition upper_char (c : ascii) : ascii :=
  if is_lower c then ascii_of_nat (nat_of_ascii c - 32) else c.

(** [s.lower()] *)
Fixpoint lower (s : string) : string :=
  match s with
  | EmptyString => EmptyString
  | String c r => String (lower_char c) (lower r)
  end.

(** [s.upper()] *)
Fixpoint upper (s : string) : string :=
  match s with
  | EmptyString => EmptyString
  | String c r => String (upper_char c) (upper r)
  end.

(** [hay.startswith(needle)] *)
Fixpoint startswith (needle hay : string) : bool :=
  match needle, hay with
  | EmptyString, _ => true
  | String _ _, EmptyString => false
  | String a n', String b h' => Ascii.eqb a b && startswith n' h'
  end.

(** [needle in hay] on two strings: substring test. *)
Fixpoint contains (needle hay : string) : bool :=
  startswith needle hay ||
  match hay with
  | EmptyString => false
  | String _ h' => contains needle h'
  end.

(** Truth value of a string: [bool(s)]. *)
Definition truthy (s : string) : bool :=
  match s with EmptyString => false | String _ _ => true end.

(** Equality of two strings ignoring (ASCII) case. *)
Definition eq_nocase (a b : string) : Prop := upper a = upper b.

End Str.

(* ===================================================================== *)
(** ** Data model (the pydantic classes) *)

(** [uuid.UUID], by its 128-bit integer value. *)
Record UUID : Type := mkUUID { uuid_int : N }.

(** [datetime.datetime], by its POSIX timestamp in microseconds. *)
Record datetime : Type := mkDatetime { timestamp_us : Z }.

Record Model : Type := mkModel {
  deviceType : string;
  manufacturer : option string;
  modelNumber : option string;
  hardwareVersion : option string;
  description : option string
}.

Record Unit : Type := mkUnit {
  serialNumber : option string;
  firmwareVersion : option string;
  firmwareDate : option datetime
}.

Record Interface : Type := mkInterface {
  macAddress : string;
  interfaceType : string;
  band : option string
}.

Record Connection : Type := mkConnection {
  conn_macAddress : string;
  ipAddress : option string;
  ipv6Address : option string;
  parentDeviceID : option UUID
}.

Record Property : Type := mkProperty {
  name : string;
  value : string
}.

Record Device : Type := mkDevice {
  deviceID : UUID;
  lastChangeRevision : Z;
  model : Model;
  unit : Unit;
  isAuthority : bool;
  nodeType : option string;
  friendlyName : option string;
  knownInterfaces : list Interface;
  connections : list Connection;
  properties : list Property;
  maxAllowedProperties : Z
}.

Record DeviceStatus : Type := mkDeviceStatus {
  device : Device;
  is_online : bool;
  online_interfaces : list Interface
}.

(* ===================================================================== *)
(** ** Filtering and status reconciliation *)

(** [d.friendlyName or ""] *)
Definition name_or_empty (d : Device) : string :=
  match friendlyName d with
  | Some s => s
  | None => ""
  end.

(** The condition of the first comprehension of [filter_devices]. *)
Definition name_matches (friendly_name : string) (d : Device) : bool :=
  Str.contains (Str.lower friendly_name) (Str.lower (name_or_empty d)).

(** [any(i.macAddress == mac_address for i in d.knownInterfaces)] *)
Definition has_mac (mac_address : string) (d : Device) : bool :=
  existsb (fun i => String.eqb (macAddress i) mac_address) (knownInterfaces d).

(** A keyword argument that defaults to [None] is tested by truth value:
    [None] and the empty string both skip the branch. *)
Definition given (arg : option string) : option string :=
  match arg with
  | Some s => if Str.truthy s then Some s else None
  | None => None
  end.

Definition filter_devices (devices : list Device)
    (friendly_name mac_address : option string) : list Device :=
  let devices :=
    match given friendly_name with
    | Some n => List.filter (name_matches n) devices
    | None => devices
    end in
  let devices :=
    match given mac_address with
    | Some m =>
        let mac_address := Str.upper m in
        List.filter (has_mac mac_address) devices
    | None => devices
    end in
  devices.

Definition get_device_status (d : Device) (online_macs : gset string)
    : DeviceStatus :=
  let online_interfaces :=
    List.filter (fun i => bool_decide (macAddress i ∈ online_macs))
                (knownInterfaces d) in
  {| device := d;
     is_online := match online_interfaces with [] => false | _ :: _ => true end;
     online_interfaces := online_interfaces |}.

(* ===================================================================== *)
(** ** The pipeline of [main] *)

(** The condition under which [main] drops a device from the inventory. *)
Definition looks_like_uuid (d : Device) : bool :=
  Nat.eqb (String.length (name_or_empty d)) 36
  && Str.contains "-" (name_or_empty d).


(** First comprehension of [main]. *)
Definition drop_unlabelled (inventory : list Device) : list Device :=
  List.filter (fun d => negb (looks_like_uuid d)) inventory.

Record Args : Type := mkArgs {
  online : bool;
  offline : bool;
  friendly : option string;
  mac : option string
}.

(** What one run of [main] prints, section by section.  The text layout
    of each section is left out; the lists and counts handed to the
    printing functions are kept. *)
Record Output : Type := mkOutput {
  online_section : option (list DeviceStatus);
  offline_section : option (list DeviceStatus);
  (** total, online and offline counts of the summary line *)
  summary : option (nat * nat * nat)
}.

Definition selected_devices (args : Args) (inventory : list Device)
    : list Device :=
  filter_devices (drop_unlabelled inventory) (friendly args) (mac args).

Definition device_statuses (devices : list Device) (online_macs : gset string)
    : list DeviceStatus :=
  List.map (fun d => get_device_status d online_macs) devices.

Definition online_of (statuses : list DeviceStatus) : list DeviceStatus :=
  List.filter is_online statuses.

Definition offline_of (statuses : list DeviceStatus) : list DeviceStatus :=
  List.filter (fun s => negb (is_online s)) statuses.

Definition main (args : Args) (inventory : list Device)
    (online_macs : gset string) : Output :=
  let devices := selected_devices args inventory in
  let statuses := device_statuses devices online_macs in
  let on := online_of statuses in
  let off := offline_of statuses in
  {| online_section :=
       if negb (offline args) || online args then Some on else None;
     offline_section :=
       if negb (online args) || offline args then Some off else None;
     summary :=
       if negb (online args) && negb (offline args)
       then Some (length devices, length on, length off)
       else None |}.

(* ===================================================================== *)
(** ** Decoded JSON and the exceptions the parser can raise *)

(** What [requests]' [.json()] returns.  A [dict] is an association list
    read from the left: the first binding of a key is its value. *)
#[warning="-register-all"] Inductive json : Type :=
| JNull
| JBool (b : bool)
| JInt (z : Z)
| JFloat (literal : string)
| JStr (s : string)
| JArr (items : list json)
| JObj (fields : list (string * json)).

Definition dict : Type := list (string * json).

Inductive exn : Type :=
| KeyError (key : string)
| TypeError
| AttributeError
| ValidationError.

Definition result (A : Type) : Type := (exn + A)%type.

#[global] Instance result_ret : MRet result := fun A x => inr x.

#[global] Instance result_bind : MBind result := fun A B f x =>
  match x with
  | inl e => inl e
  | inr a => f a
  end.

(** A list comprehension whose element expression can raise: the first
    exception, in iteration order, ends it. *)
Fixpoint comprehension {A B : Type} (f : A -> result B) (l : list A)
    : result (list B) :=
  match l with
  | [] => inr []
  | x :: r =>
      match f x with
      | inl e => inl e
      | inr y =>
          match comprehension f r with
          | inl e => inl e
          | inr ys => inr (y :: ys)
          end
      end
  end.

(** [d.get(key)] *)
Fixpoint dict_get (key : string) (d : dict) : option json :=
  match d with
  | [] => None
  | (k, v) :: r => if String.eqb k key then Some v else dict_get key r
  end.

(** [d[key]] *)
Definition subscript (d : dict) (key : string) : result json :=
  match dict_get key d with
  | Some v => inr v
  | None => inl (KeyError key)
  end.

(** [**j] in a call: [j] has to be a mapping. *)
Definition kwargs (j : json) : result dict :=
  match j with
  | JObj o => inr o
  | _ => inl TypeError
  end.

(** [for x in j]: lists give their items, strings their characters,
    dicts their keys; nothing else is iterable. *)
Definition iterate (j : json) : result (list json) :=
  match j with
  | JArr l => inr l
  | JStr s => inr (List.map (fun c => JStr (String c EmptyString))
                            (list_ascii_of_string s))
  | JObj o => inr (List.map (fun kv => JStr (fst kv)) o)
  | _ => inl TypeError
  end.

(* ===================================================================== *)
(** ** pydantic model construction *)

(** How pydantic validates one value against an annotated type.  The
    program relies on the library's defaults; the coercion rules are the
    library's, so the parser is written over any family of validators. *)
Class Validators : Type := {
  validate_str : json -> option string;
  validate_int : json -> option Z;
  validate_bool : json -> option bool;
  validate_uuid : json -> option UUID;
  validate_datetime : json -> option datetime
}.

Section Parser.

Context `{V : Validators}.

(** A field without default: it has to be there and to validate. *)
Definition required {A : Type} (v : json -> option A) (kw : dict)
    (key : string) : option A :=
  match dict_get key kw with
  | Some j => v j
  | None => None
  end.

(** A field [Optional[T] = None]: absent or [null] gives [None]. *)
Definition optional {A : Type} (v : json -> option A) (kw : dict)
    (key : string) : option (option A) :=
  match dict_get key kw with
  | None => Some None
  | Some JNull => Some None
  | Some j =>
      match v j with
      | Some x => Some (Some x)
      | None => None
      end
  end.

(** Failed validation raises [ValidationError]. *)
Definition validated {A : Type} (x : option A) : result A :=
  match x with
  | Some a => inr a
  | None => inl ValidationError
  end.

(** [Model(kw...)]; keys that name no field are ignored. *)
Definition Model_init (kw : dict) : result Model :=
  validated (
    dt ← required validate_str kw "deviceType";
    mf ← optional validate_str kw "manufacturer";
    mn ← optional validate_str kw "modelNumber";
    hv ← optional validate_str kw "hardwareVersion";
    ds ← optional validate_str kw "description";
    Some (mkModel dt mf mn hv ds)).

Definition Unit_init (kw : dict) : result Unit :=
  validated (
    sn ← optional validate_str kw "serialNumber";
    fv ← optional validate_str kw "firmwareVersion";
    fd ← optional validate_datetime kw "firmwareDate";
    Some (mkUnit sn fv fd)).

Definition Interface_init (kw : dict) : result Interface :=
  validated (
    ma ← required validate_str kw "macAddress";
    it ← required validate_str kw "interfaceType";
    bd ← optional validate_str kw "band";
    Some (mkInterface ma it bd)).

Definition Connection_init (kw : dict) : result Connection :=
  validated (
    ma ← required validate_str kw "macAddress";
    ip ← optional validate_str kw "ipAddress";
    i6 ← optional validate_str kw "ipv6Address";
    pd ← optional validate_uuid kw "parentDeviceID";
    Some (mkConnection ma ip i6 pd)).

Definition Property_init (kw : dict) : result Property :=
  validated (
    nm ← required validate_str kw "name";
    vl ← required validate_str kw "value";
    Some (mkProperty nm vl)).

(** [Device] built from [device_data], where [device_data] is the record with the
    five nested entries replaced by the objects built from them: those
    are instances of the annotated classes and pass as they are; the
    other fields are read from the record. *)
Definition Device_init (device_data : dict) (m : Model) (u : Unit)
    (ifs : list Interface) (cs : list Connection) (ps : list Property)
    : result Device :=
  validated (
    id ← required validate_uuid device_data "deviceID";
    rev ← required validate_int device_data "lastChangeRevision";
    au ← required validate_bool device_data "isAuthority";
    nt ← optional validate_str device_data "nodeType";
    fn ← optional validate_str device_data "friendlyName";
    mx ← required validate_int device_data "maxAllowedProperties";
    Some (mkDevice id rev m u au nt fn ifs cs ps mx)).

(** Building one object from a decoded value, unpacking included. *)
Definition build {A : Type} (init : dict -> result A) (x : json) : result A :=
  kw ← kwargs x; init kw.

(** The comprehension that builds one object per item of [device[key]]. *)
Definition build_list {A : Type} (init : dict -> result A)
    (device : dict) (key : string) : result (list A) :=
  j ← subscript device key;
  l ← iterate j;
  comprehension (build init) l.

Definition parse_device (device : dict) : result Device :=
  m ← (j ← subscript device "model"; build Model_init j);
  u ← (j ← subscript device "unit"; build Unit_init j);
  ifs ← build_list Interface_init device "knownInterfaces";
  cs ← build_list Connection_init device "connections";
  ps ← build_list Property_init device "properties";
  Device_init device m u ifs cs ps.

(** The comprehension of [get_devices] over the [devices] array of the
    response; an item without [copy]/[update] raises. *)
Definition get_devices (devices : list json) : result (list Device) :=
  comprehension
    (fun d => match d with
              | JObj o => parse_device o
              | _ => inl AttributeError
              end)
    devices.

(* ------------------------------------------------------------------- *)
(** *** Predicates on records, used to state the parser's properties *)

(** The field is present and its value validates. *)
Definition field_valid {A : Type} (v : json -> option A) (kw : dict)
    (key : string) : bool :=
  match required v kw key with Some _ => true | None => false end.

Definition Model_required_ok (j : json) : bool :=
  match j with
  | JObj o => field_valid validate_str o "deviceType"
  | _ => false
  end.

Definition Interface_required_ok (j : json) : bool :=
  match j with
  | JObj o => field_valid validate_str o "macAddress"
              && field_valid validate_str o "interfaceType"
  | _ => false
  end.

Definition Connection_required_ok (j : json) : bool :=
  match j with
  | JObj o => field_valid validate_str o "macAddress"
  | _ => false
  end.

Definition Property_required_ok (j : json) : bool :=
  match j with
  | JObj o => field_valid validate_str o "name"
              && field_valid validate_str o "value"
  | _ => false
  end.

(** Every element of the array under [key], if there is one. *)
Definition elements_ok (p : json -> bool) (device : dict) (key : string)
    : bool :=
  match dict_get key device with
  | Some (JArr l) => forallb p l
  | _ => true
  end.

(** No required field (deviceID, lastChangeRevision, model.deviceType,
    isAuthority, maxAllowedProperties, a required field of an element
    of one of the three arrays) is absent or fails validation. *)
Definition required_fields_ok (device : dict) : bool :=
  field_valid validate_uuid device "deviceID"
  && field_valid validate_int device "lastChangeRevision"
  && match dict_get "model" device with
     | Some j => Model_required_ok j
     | None => false
     end
  && field_valid validate_bool device "isAuthority"
  && field_valid validate_int device "maxAllowedProperties"
  && elements_ok Interface_required_ok device "knownInterfaces"
  && elements_ok Connection_required_ok device "connections"
  && elements_ok Property_required_ok device "properties".

Definition is_object (j : json) : bool :=
  match j with JObj _ => true | _ => false end.

Definition is_array_of_objects (j : json) : bool :=
  match j with JArr l => forallb is_object l | _ => false end.

Definition has (p : json -> bool) (device : dict) (key : string) : bool :=
  match dict_get key device with Some j => p j | None => false end.

(** The five nested entries are there and have the shape the parser
    unpacks: two objects and three arrays of objects. *)
Definition well_shaped (device : dict) : bool :=
  has is_object device "model"
  && has is_object device "unit"
  && has is_array_of_objects device "knownInterfaces"
  && has is_array_of_objects device "connections"
  && has is_array_of_objects device "properties".

End Parser.

(* ===================================================================== *)
(** ** Declared fields, and records cut down to them *)













(** The object [j] has none of the keys [names]. *)
Definition omits (names : list string) (j : json) : bool :=
  match j with
  | JObj o =>
      forallb (fun k => match dict_get k o with None => true | Some _ => false end)
              names
  | _ => true
  end.

Definition items_omit (names : list string) (device : dict) (key : string)
    : bool :=
  match dict_get key device with
  | Some (JArr l) => forallb (omits names) l
  | _ => true
  end.

(** Every optional field of the record is left out. *)
Definition optional_omitted (device : dict) : bool :=
  omits ["nodeType"; "friendlyName"] (JObj device)
  && has (omits ["manufacturer"; "modelNumber"; "hardwareVersion";
                 "description"]) device "model"
  && has (omits ["serialNumber"; "firmwareVersion"; "firmwareDate"])
         device "unit"
  && items_omit ["band"] device "knownInterfaces"
  && items_omit ["ipAddress"; "ipv6Address"; "parentDeviceID"]
                device "connections".

(** Every optional field of the parsed device is [None]. *)
Definition optional_absent (d : Device) : Prop :=
  nodeType d = None /\ friendlyName d = None
  /\ manufacturer (model d) = None /\ modelNumber (model d) = None
  /\ hardwareVersion (model d) = None /\ description (model d) = None
  /\ serialNumber (unit d) = None /\ firmwareVersion (unit d) = None
  /\ firmwareDate (unit d) = None
  /\ Forall (fun i => band i = None) (knownInterfaces d)
  /\ Forall (fun c => ipAddress c = None /\ ipv6Address c = None
                      /\ parentDeviceID c = None) (connections d).

(* ===================================================================== *)
(** ** A family of validators to run the parser on concrete records

    It accepts a value of the JSON type that corresponds to the
    annotation and nothing else, which is less than pydantic's default
    mode accepts. *)

Module Sample.

Definition hex_digit (c : ascii) : option N :=
  let n := N_of_ascii c in
  if (48 <=? n)%N && (n <=? 57)%N then Some (n - 48)%N
  else if (97 <=? n)%N && (n <=? 102)%N then Some (n - 87)%N
  else if (65 <=? n)%N && (n <=? 70)%N then Some (n - 55)%N
  else None.

(** Hexadecimal text, hyphens skipped: the value and the digit count. *)
Fixpoint hex_value (s : string) (acc : N) (digits : nat) : option (N * nat) :=
  match s with
  | EmptyString => Some (acc, digits)
  | String c r =>
      if Ascii.eqb c "-"%char then hex_value r acc digits
      else match hex_digit c with
           | Some h => hex_value r (16 * acc + h)%N (S digits)
           | None => None
           end
  end.

Definition uuid_of_json (j : json) : option UUID :=
  match j with
  | JStr s =>
      match hex_value s 0%N 0 with
      | Some (n, 32) => Some (mkUUID n)
      | _ => None
      end
  | _ => None
  end.

#[global] Instance validators : Validators := {|
  validate_str := fun j => match j with JStr s => Some s | _ => None end;
  validate_int := fun j => match j with JInt z => Some z | _ => None end;
  validate_bool := fun j => match j with JBool b => Some b | _ => None end;
  validate_uuid := uuid_of_json;
  validate_datetime := fun j =>
    match j with
    | JInt z => Some (mkDatetime (z * 1000000))
    | _ => None
    end
|}.

Definition tv_interface : json :=
  JObj [("macAddress", JStr "AA:BB:CC:DD:EE:FF"); ("interfaceType", JStr "Wireless")].

(** A record with the required fields only. *)
Definition tv_record : dict :=
  [("deviceID", JStr "550e8400-e29b-41d4-a716-446655440000");
   ("lastChangeRevision", JInt 7);
   ("model", JObj [("deviceType", JStr "Computer")]);
   ("unit", JObj []);
   ("isAuthority", JBool false);
   ("knownInterfaces", JArr [tv_interface]);
   ("connections", JArr [JObj [("macAddress", JStr "AA:BB:CC:DD:EE:FF")]]);
   ("properties", JArr [JObj [("name", JStr "userDeviceName"); ("value", JStr "TV")]]);
   ("maxAllowedProperties", JInt 16)].

(** The same record without its [model] entry. *)
Definition no_model_record : dict :=
  List.filter (fun kv => negb (String.eqb (fst kv) "model")) tv_record.



Definition interface (m : string) : Interface :=
  {| macAddress := m; interfaceType := "Wireless"; band := None |}.

Definition named_device (label : option string) (ifs : list Interface)
    : Device :=
  {| deviceID := mkUUID 1; lastChangeRevision := 1;
     model := mkModel "Computer" None None None None;
     unit := mkUnit None None None;
     isAuthority := false; nodeType := None; friendlyName := label;
     knownInterfaces := ifs; connections := []; properties := [];
     maxAllowedProperties := 16 |}.

(** The device of the spec's scenarios. *)
Definition tv : Device :=
  named_device (Some "Living Room TV") [interface "AA:BB:CC:DD:EE:FF"].

(** A device whose stored MAC address is in lower case. *)
Definition printer : Device :=
  named_device (Some "Printer") [interface "aa:bb:cc:dd:ee:ff"].

Definition unlabelled : Device :=
  named_device (Some "550e8400-e29b-41d4-a716-446655440000")
               [interface "11:22:33:44:55:66"].

End Sample.

(* ===================================================================== *)
(** ** The online MAC set read from the router's answer *)

(** [x[key]] with a string key, on any decoded value: only a [dict] can
    be subscripted that way. *)
Definition subscript_json (x : json) (key : string) : result json :=
  match x with
  | JObj o => subscript o key
  | _ => inl TypeError
  end.

(** Lists and dicts cannot be members of a set. *)
Definition hashable (j : json) : bool :=
  match j with
  | JArr _ | JObj _ => false
  | _ => true
  end.

(** [conn["macAddress"]], as a member of the set under construction. *)
Definition conn_mac (conn : json) : result json :=
  v ← subscript_json conn "macAddress";
  if hashable v then inr v else inl TypeError.

(** The inner loop of the set comprehension:
    [for conn in device["connections"]]. *)
Definition node_macs (node : json) : result (list json) :=
  cs ← subscript_json node "connections";
  conns ← iterate cs;
  comprehension conn_mac conns.

Definition str_member (j : json) : option string :=
  match j with
  | JStr s => Some s
  | _ => None
  end.

(** The strings among the collected values.  Other scalars would sit in
    Python's set too; no [str] is equal to one of them, and the set is
    only ever asked whether it holds the [str] of an interface. *)
Definition str_members (values : list json) : gset string :=
  list_to_set (omap str_member values).

Definition get_online_macs (response : json) : result (gset string) :=
  out ← subscript_json response "output";
  nodes_j ← subscript_json out "nodeWirelessConnections";
  nodes ← iterate nodes_j;
  values ← comprehension node_macs nodes;
  mret (str_members (List.concat values)).

(** The answer lists [mac] as the address of a connection of a node. *)
Definition reports (response : json) (mac : string) : Prop :=
  exists out nodes_j nodes node cs conns conn,
    subscript_json response "output" = inr out
    /\ subscript_json out "nodeWirelessConnections" = inr nodes_j
    /\ iterate nodes_j = inr nodes /\ node ∈ nodes
    /\ subscript_json node "connections" = inr cs
    /\ iterate cs = inr conns /\ conn ∈ conns
    /\ subscript_json conn "macAddress" = inr (JStr mac).

(** A connection object with a scalar address. *)
Definition conn_ok (conn : json) : bool :=
  match conn with
  | JObj o => match dict_get "macAddress" o with
              | Some v => hashable v
              | None => false
              end
  | _ => false
  end.

Definition node_ok (node : json) : bool :=
  match node with
  | JObj o => match dict_get "connections" o with
              | Some (JArr conns) => forallb conn_ok conns
              | _ => false
              end
  | _ => false
  end.

(** The answer has the shape the comprehension walks through. *)
Definition answer_ok (response : json) : bool :=
  match response with
  | JObj r =>
      match dict_get "output" r with
      | Some (JObj out) =>
          match dict_get "nodeWirelessConnections" out with
          | Some (JArr nodes) => forallb node_ok nodes
          | _ => false
          end
      | _ => false
      end
  | _ => false
  end.

(** The exceptions walking through the answer can end in. *)
Definition answer_error (e : exn) : Prop :=
  e = TypeError
  \/ exists k, e = KeyError k
               /\ In k ["output"; "nodeWirelessConnections"; "connections";
                        "macAddress"].

(** The exceptions parsing the record [device] can end in. *)
Definition parse_error (device : dict) (e : exn) : Prop :=
  e = TypeError \/ e = ValidationError
  \/ exists k, e = KeyError k
               /\ In k ["model"; "unit"; "knownInterfaces"; "connections";
                        "properties"]
               /\ dict_get k device = None.

(** Some known interface of [d] has its address in [S]. *)
Definition has_online_mac (S : gset string) (d : Device) : bool :=
  existsb (fun i => bool_decide (macAddress i ∈ S)) (knownInterfaces d).

(* ===================================================================== *)
(** ** The two print functions and the summary line

    Each function is modelled by the list of the lines it prints.  The
    glyphs are kept as the bytes of their UTF-8 encoding. *)

Module Present.

Definition newline : string := String (ascii_of_nat 10) EmptyString.

(** [s[:n]] *)
Fixpoint slice_to (n : nat) (s : string) : string :=
  match n, s with
  | S n', String c r => String c (slice_to n' r)
  | _, _ => EmptyString
  end.

(** [c * n] *)
Fixpoint times (c : ascii) (n : nat) : string :=
  match n with
  | O => EmptyString
  | S n' => String c (times c n')
  end.

(** The format [{s:<width}]: spaces are added on the right up to
    [width]; a longer text is left as it is. *)
Definition ljust (width : nat) (s : string) : string :=
  s ++ times " "%char (width - String.length s).

(** [friendlyName or "Unknown Device"] *)
Definition label (d : Device) : string :=
  match friendlyName d with
  | Some s => if Str.truthy s then s else "Unknown Device"
  | None => "Unknown Device"
  end.

(** [", ".join(i.macAddress for i in status.online_interfaces)] *)
Definition joined_macs (st : DeviceStatus) : string :=
  String.concat ", " (List.map macAddress (online_interfaces st)).

(** The MAC column of an online line. *)
Definition macs_column (st : DeviceStatus) : string :=
  let macs := joined_macs st in
  if (25 <? String.length macs)%nat then slice_to 22 macs ++ "..." else macs.

(** The name column of an online line. *)
Definition name_padded (st : DeviceStatus) : string :=
  let name := label (device st) in
  name ++ times " "%char
            (Z.to_nat (Z.max 0 (30 - Z.of_nat (String.length name)))).

Definition online_line (st : DeviceStatus) : string :=
  "✓ " ++ name_padded st ++ " │ " ++ macs_column st.

Definition print_online_devices (devices : list DeviceStatus) : list string :=
  [newline ++ "🌐 Currently Connected Devices"; times "="%char 70]
  ++ List.map online_line devices.

Definition COLUMN_WIDTH : nat := 35.

(** The name of an offline cell, cut when it is too long. *)
Definition cell_name (st : DeviceStatus) : string :=
  let name := label (device st) in
  if (COLUMN_WIDTH - 5 <? String.length name)%nat
  then slice_to (COLUMN_WIDTH - 8) name ++ "..."
  else name.

(** The text after the glyph and the space of an offline cell. *)
Definition cell_field (st : DeviceStatus) : string :=
  ljust COLUMN_WIDTH (cell_name st).

Definition offline_cell (st : DeviceStatus) : string :=
  "✗ " ++ cell_field st.

(** [range(start, stop, step)] for a positive step, by counting down a
    bound on the number of items. *)
Fixpoint range_from (fuel start stop step : nat) : list nat :=
  match fuel with
  | O => []
  | S fuel' =>
      if (start <? stop)%nat
      then start :: range_from fuel' (start + step) stop step
      else []
  end.

(** [range(0, stop, step)] *)
Definition range (stop step : nat) : list nat :=
  range_from stop 0 stop step.

(** [devices[i : i + 2]] for each [i] of the loop. *)
Definition offline_rows (devices : list DeviceStatus)
    : list (list DeviceStatus) :=
  List.map (fun i => firstn 2 (skipn i devices)) (range (length devices) 2).

Definition row_text (cells : list DeviceStatus) : string :=
  fold_left (fun row st => row ++ offline_cell st) cells "".

Definition print_offline_devices (devices : list DeviceStatus) : list string :=
  [newline ++ "💤 Offline Devices (" ++ pretty (length devices) ++ " total)";
   times "="%char 70]
  ++ List.map row_text (offline_rows devices).

(** [a or b] on two optional strings, as a text. *)
Definition or_else (a b : option string) : string :=
  match given a with
  | Some s => s
  | None => match b with Some s => s | None => "" end
  end.

(** The filter part of the summary line. *)
Definition filter_msg (args : Args) : string :=
  match given (friendly args), given (mac args) with
  | None, None => ""
  | _, _ =>
      " matching "
      ++ (match given (friendly args) with
          | Some _ => "friendly name"
          | None => "MAC"
          end)
      ++ " '" ++ or_else (friendly args) (mac args) ++ "'"
  end.

Definition summary_line (args : Args) (total on off : nat) : string :=
  newline ++ "Total Devices" ++ filter_msg args ++ ": " ++ pretty total
  ++ " (🌐 " ++ pretty on ++ " online, 💤 " ++ pretty off ++ " offline)".

(** Everything [main] prints, line by line. *)
Definition main_lines (args : Args) (inventory : list Device)
    (online_macs : gset string) : list string :=
  let out := main args inventory online_macs in
  (match online_section out with
   | Some on => print_online_devices on
   | None => []
   end)
  ++ (match offline_section out with
      | Some off => print_offline_devices off
      | None => []
      end)
  ++ (match summary out with
      | Some (total, on, off) => [summary_line args total on off]
      | None => []
      end).

End Present.


(* ===================================================================== *)
(** ** Values to run the added functions on *)

Module Fixtures.

Definition conn (m : string) : json := JObj [("macAddress", JStr m)].

(** Two nodes, three connections, one address seen twice. *)
Definition answer : json :=
  JObj [("result", JStr "OK");
        ("output",
         JObj [("nodeWirelessConnections",
                JArr [JObj [("deviceID", JStr "node-1");
                            ("connections",
                             JArr [conn "AA:BB:CC:DD:EE:FF";
                                   conn "11:22:33:44:55:66"])];
                      JObj [("connections", JArr [conn "AA:BB:CC:DD:EE:FF"])]])])].

(** An answer without its [output] entry. *)
Definition refused : json := JObj [("result", JStr "_ErrorUnauthorized")].

Definition long_name : string := "Conference Room Projector Second Floor".

Definition projector : Device :=
  Sample.named_device (Some long_name)
    [Sample.interface "AA:BB:CC:DD:EE:FF"; Sample.interface "11:22:33:44:55:66"].

Definition tv_gone : Device :=
  Sample.named_device (Some "living room tv") [Sample.interface "AA:BB:CC:DD:EE:FF"].

(** What [Sample.tv_record] parses to. *)
Definition tv_parsed : Device :=
  Eval vm_compute in
    match parse_device Sample.tv_record with
    | inr d => d
    | inl _ => Sample.tv
    end.

Definition both_macs : gset string :=
  {["AA:BB:CC:DD:EE:FF"; "11:22:33:44:55:66"]}.

End Fixtures.

(* ===================================================================== *)
(** * Properties *)

(** ** Comprehensions with a condition *)

Section Filter.

Context {A : Type}.
Implicit Types (f g : A -> bool) (l : list A).

Lemma filter_elem_of f l x :
  x ∈ List.filter f l <-> x ∈ l /\ f x = true.
Proof.
  rewrite !list_elem_of_In. apply filter_In.
Qed.

Lemma filter_sublist f l : List.filter f l `sublist_of` l.
Proof.
  induction l as [|x l IH]; simpl.
  - constructor.
  - destruct (f x); [by apply sublist_skip | by apply sublist_cons].
Qed.

(** Nothing that passes the test is left behind. *)
Lemma filter_greatest f l l' :
  l' `sublist_of` l -> Forall (fun x => f x = true) l' ->
  l' `sublist_of` List.filter f l.
Proof.
  intros Hsub. induction Hsub as [|x l1 l2 _ IH|x l1 l2 _ IH]; intros Hall; simpl.
  - constructor.
  - inversion Hall as [|? ? Hx Hrest]; subst. rewrite Hx.
    apply sublist_skip. by apply IH.
  - destruct (f x); [apply sublist_cons|]; by apply IH.
Qed.

Lemma filter_swap f g l :
  List.filter f (List.filter g l) = List.filter g (List.filter f l).
Proof.
  induction l as [|x l IH]; simpl; [done|].
  destruct (g x) eqn:Hg, (f x) eqn:Hf; simpl; rewrite ?Hg, ?Hf, ?IH; done.
Qed.

Lemma filter_split_length f l :
  length (List.filter f l) + length (List.filter (fun x => negb (f x)) l)
  = length l.
Proof.
  induction l as [|x l IH]; simpl; [done|].
  destruct (f x); simpl; lia.
Qed.

Lemma filter_split_perm f l :
  l ≡ₚ (List.filter f l ++ List.filter (fun x => negb (f x)) l).
Proof.
  induction l as [|x l IH]; simpl; [done|].
  destruct (f x); simpl.
  - by constructor.
  - rewrite <- Permutation_middle. by constructor.
Qed.

End Filter.

(** ** Strings *)

Lemma startswith_spec (needle hay : string) :
  Str.startswith needle hay = true <-> exists rest, hay = needle ++ rest.
Proof.
  revert hay. induction needle as [|a n IH]; intros hay; simpl.
  - split; [intros _; by exists hay | done].
  - destruct hay as [|b h].
    + split; [done | intros [rest Hr]; discriminate].
    + rewrite andb_true_iff, Ascii.eqb_eq, IH. split.
      * intros [-> [rest ->]]. by exists rest.
      * intros [rest Hr]. injection Hr as -> ->. split; [done | by exists rest].
Qed.

(** [needle in hay] holds exactly when [hay] is some text, then
    [needle], then some text. *)
Lemma contains_spec (needle hay : string) :
  Str.contains needle hay = true
  <-> exists before after, hay = before ++ needle ++ after.
Proof.
  induction hay as [|b h IH]; simpl.
  - rewrite orb_false_r, startswith_spec. split.
    + intros [rest Hr]. by exists "", rest.
    + intros [before [after Hr]]. destruct before; simpl in Hr.
      * by exists after.
      * discriminate.
  - rewrite orb_true_iff, startswith_spec, IH. split.
    + intros [[rest Hr] | [before [after Hr]]].
      * by exists "", rest.
      * exists (String b before), after. simpl. by rewrite Hr.
    + intros [before [after Hr]]. destruct before as [|c before]; simpl in Hr.
      * left. by exists after.
      * right. injection Hr as -> ->. by exists before, after.
Qed.

Lemma truthy_nonempty (s : string) : Str.truthy s = true <-> s <> "".
Proof. destruct s; simpl; split; congruence. Qed.

Lemma given_nonempty (s : string) : s <> "" -> given (Some s) = Some s.
Proof. intros Hs. unfold given. by destruct s. Qed.

Lemma given_empty : given (Some "") = None.
Proof. reflexivity. Qed.

(** ** Filtering *)

Lemma has_mac_spec (mac_address : string) (d : Device) :
  has_mac mac_address d = true
  <-> exists i, i ∈ knownInterfaces d /\ macAddress i = mac_address.
Proof.
  unfold has_mac. rewrite existsb_exists. split.
  - intros [i [Hin Heq]]. exists i. rewrite list_elem_of_In.
    by apply String.eqb_eq in Heq.
  - intros [i [Hin Heq]]. exists i. rewrite <- list_elem_of_In.
    by apply String.eqb_eq in Heq.
Qed.

(** The two branches of [filter_devices], one after the other. *)
Lemma filter_devices_steps (D : list Device) (n m : option string) :
  filter_devices D n m = filter_devices (filter_devices D n None) None m.
Proof. reflexivity. Qed.

(** A falsy argument is as good as none. *)
Lemma filter_devices_given (D : list Device) (n m : option string) :
  filter_devices D n m = filter_devices D (given n) (given m).
Proof.
  unfold filter_devices.
  assert (Hg : forall a, given (given a) = given a).
  { intros [s|]; [|done]. simpl. by destruct (Str.truthy s) eqn:E; simpl; rewrite ?E. }
  by rewrite !Hg.
Qed.

Lemma filter_devices_sublist (D : list Device) (n m : option string) :
  filter_devices D n m `sublist_of` D.
Proof.
  unfold filter_devices.
  destruct (given n), (given m); try done;
    repeat (etrans; [apply filter_sublist|]); done.
Qed.


(** When the stored addresses carry no lower-case letter, the test of
    the MAC branch is equality up to case. *)
Lemma has_mac_nocase (m : string) (d : Device) :
  Forall (fun i => Str.upper (macAddress i) = macAddress i) (knownInterfaces d) ->
  has_mac (Str.upper m) d = true
  <-> exists i, i ∈ knownInterfaces d /\ Str.eq_nocase (macAddress i) m.
Proof.
  intros Hup. rewrite has_mac_spec. rewrite Forall_forall in Hup.
  split; intros [i [Hin Heq]]; exists i; (split; [done|]).
  - unfold Str.eq_nocase. by rewrite (Hup i Hin).
  - unfold Str.eq_nocase in Heq. by rewrite <- (Hup i Hin).
Qed.

(* ===================================================================== *)
(** ** Status reconciliation *)

(** C1.  For every device [d] and online-MAC set [S], [get_device_status]
    returns the device itself, with [online_interfaces] exactly the known
    interfaces whose MAC address is in [S] (same order, nothing passing
    left out), and [is_online] true exactly when there is such an
    interface; a device without known interfaces is offline. *)
Theorem get_device_status_spec (d : Device) (S : gset string) :
  let st := get_device_status d S in
  device st = d
  /\ online_interfaces st `sublist_of` knownInterfaces d
  /\ (forall i, i ∈ online_interfaces st
                <-> i ∈ knownInterfaces d /\ macAddress i ∈ S)
  /\ (forall l, l `sublist_of` knownInterfaces d ->
                Forall (fun i => macAddress i ∈ S) l ->
                l `sublist_of` online_interfaces st)
  /\ (is_online st = true <-> online_interfaces st <> [])
  /\ (is_online st = true
      <-> exists i, i ∈ knownInterfaces d /\ macAddress i ∈ S)
  /\ (knownInterfaces d = [] -> is_online st = false).
Proof.
  set (f := fun i : Interface => bool_decide (macAddress i ∈ S)).
  assert (Hmem : forall i, i ∈ List.filter f (knownInterfaces d)
                           <-> i ∈ knownInterfaces d /\ macAddress i ∈ S).
  { intros i. rewrite filter_elem_of. unfold f. by rewrite bool_decide_eq_true. }
  assert (Hon : is_online (get_device_status d S) = true
                <-> List.filter f (knownInterfaces d) <> []).
  { simpl. fold f. destruct (List.filter f (knownInterfaces d)); split; congruence. }
  assert (Hex : is_online (get_device_status d S) = true
                <-> exists i, i ∈ knownInterfaces d /\ macAddress i ∈ S).
  { rewrite Hon. split.
    - intros Hne. destruct (List.filter f (knownInterfaces d)) as [|i r] eqn:E; [done|].
      exists i. apply Hmem. rewrite ?E. left.
    - intros [i Hi] E. pose proof (proj2 (Hmem i) Hi) as Hin.
      rewrite E in Hin. by apply not_elem_of_nil in Hin. }
  split; [reflexivity|].
  split; [apply filter_sublist|].
  split; [exact Hmem|].
  split.
  { intros l Hsub Hall. apply filter_greatest; [done|].
    eapply Forall_impl; [exact Hall|]. intros i Hi. unfold f.
    by apply bool_decide_eq_true. }
  split; [exact Hon|].
  split; [exact Hex|].
  intros E. simpl. by rewrite E.
Qed.

Lemma get_device_status_spec_witness :
  is_online (get_device_status Sample.tv {["AA:BB:CC:DD:EE:FF"]}) = true
  /\ is_online (get_device_status (Sample.named_device None []) ∅) = false.
Proof.
  split.
  - apply (get_device_status_spec Sample.tv {["AA:BB:CC:DD:EE:FF"]}).
    exists (Sample.interface "AA:BB:CC:DD:EE:FF"). split; [left | set_solver].
  - apply (get_device_status_spec (Sample.named_device None []) ∅). reflexivity.
Defined.

(* ===================================================================== *)
(** ** The inventory rule of [main] *)




(* ===================================================================== *)
(** ** The MAC and friendly-name filters *)

(** C3, as the claim words it, fails: a stored address in lower case is
    equal to the argument up to case, and the device is filtered out. *)
Lemma mac_filter_not_case_blind :
  ~ (forall (D : list Device) (m : string) (d : Device),
       d ∈ filter_devices D None (Some m)
       <-> d ∈ D /\ exists i, i ∈ knownInterfaces d
                              /\ Str.eq_nocase (macAddress i) m).
Proof.
  intros H.
  assert (Hin : Sample.printer ∈ filter_devices [Sample.printer] None
                                   (Some "aa:bb:cc:dd:ee:ff")).
  { apply H. split; [left|].
    exists (Sample.interface "aa:bb:cc:dd:ee:ff"). split; [left | reflexivity]. }
  vm_compute in Hin. by apply not_elem_of_nil in Hin.
Qed.

(** C3, amended.  For a non-empty MAC argument [m], and whatever the
    name argument, the MAC branch keeps a device exactly when one of its
    known interfaces has the address [m.upper()], compared as stored; an
    empty [m] filters nothing.  The lower-case argument
    aa:bb:cc:dd:ee:ff keeps the device stored with AA:BB:CC:DD:EE:FF. *)
Theorem filter_devices_mac_spec (D : list Device) (n : option string)
    (m : string) (d : Device) :
  m <> "" ->
  (d ∈ filter_devices D n (Some m)
   <-> d ∈ filter_devices D n None
       /\ exists i, i ∈ knownInterfaces d /\ macAddress i = Str.upper m)
  /\ filter_devices D n (Some "") = filter_devices D n None
  /\ filter_devices [Sample.tv] None (Some "aa:bb:cc:dd:ee:ff") = [Sample.tv].
Proof.
  intros Hm. split; [|split; [reflexivity | reflexivity]].
  rewrite filter_devices_steps.
  unfold filter_devices at 1. rewrite (given_nonempty m Hm). simpl.
  by rewrite filter_elem_of, has_mac_spec.
Qed.

Lemma filter_devices_mac_spec_witness :
  Sample.tv ∈ filter_devices [Sample.tv; Sample.printer] None
                (Some "aa:bb:cc:dd:ee:ff").
Proof.
  apply (filter_devices_mac_spec [Sample.tv; Sample.printer] None
           "aa:bb:cc:dd:ee:ff" Sample.tv); [done|].
  split; [left|].
  exists (Sample.interface "AA:BB:CC:DD:EE:FF"). split; [left | reflexivity].
Defined.

(** C4.  Filtering by name and then by MAC gives the same list as
    filtering by MAC and then by name, and both give the list of one
    call with both arguments. *)
Theorem filter_devices_commute (D : list Device) (n m : option string) :
  filter_devices (filter_devices D n None) None m
  = filter_devices (filter_devices D None m) n None
  /\ filter_devices (filter_devices D n None) None m = filter_devices D n m.
Proof.
  split; [|reflexivity].
  unfold filter_devices. simpl.
  destruct (given n), (given m); try reflexivity.
  apply filter_swap.
Qed.

(** C9.  [filter_devices] returns a sublist of its input: the devices
    kept are devices of the input, in the input's order, none more often
    than in the input.  Without arguments the input comes back as it
    is. *)
Theorem filter_devices_subsequence (D : list Device) (n m : option string) :
  filter_devices D n m `sublist_of` D
  /\ filter_devices D None None = D.
Proof.
  split; [apply filter_devices_sublist | reflexivity].
Qed.

(* ===================================================================== *)
(** ** Sections and summary printed by [main] *)

(** C5.  With both flags set, the two device sections are printed as
    with neither flag set, and no summary line; the summary line is
    printed exactly when neither flag is set. *)
Theorem main_section_selection (inventory : list Device)
    (online_macs : gset string) (n m : option string) :
  let both := main (mkArgs true true n m) inventory online_macs in
  let neither := main (mkArgs false false n m) inventory online_macs in
  online_section both = online_section neither
  /\ offline_section both = offline_section neither
  /\ is_Some (online_section both)
  /\ is_Some (offline_section both)
  /\ summary both = None
  /\ forall args : Args,
       is_Some (summary (main args inventory online_macs))
       <-> online args = false /\ offline args = false.
Proof.
  simpl. repeat (split; [done|]).
  intros args. destruct (online args), (offline args); simpl; split.
  all: try (intros [x Hx]; discriminate).
  all: try (intros [? ?]; discriminate).
  all: done.
Qed.

(** C10.  The online and offline lists of [main] split the list of
    statuses: each is a sublist, each status is in exactly one of them,
    together they hold the statuses once each, and in the summary line
    the online and offline counts add up to the total, which is the
    number of selected devices. *)
Theorem main_partition (args : Args) (inventory : list Device)
    (online_macs : gset string) :
  let devices := selected_devices args inventory in
  let statuses := device_statuses devices online_macs in
  online_of statuses `sublist_of` statuses
  /\ offline_of statuses `sublist_of` statuses
  /\ (forall s, s ∈ statuses ->
        (s ∈ online_of statuses /\ s ∉ offline_of statuses)
        \/ ((s ∉ online_of statuses) /\ s ∈ offline_of statuses))
  /\ statuses ≡ₚ (online_of statuses ++ offline_of statuses)
  /\ length (online_of statuses) + length (offline_of statuses)
     = length devices
  /\ match summary (main args inventory online_macs) with
     | Some (total, on, off) => total = length devices /\ on + off = total
     | None => online args = true \/ offline args = true
     end.
Proof.
  intros devices statuses.
  assert (Hlen : length (online_of statuses) + length (offline_of statuses)
                 = length devices).
  { unfold online_of, offline_of. rewrite filter_split_length.
    unfold statuses, device_statuses. apply length_map. }
  split; [apply filter_sublist|].
  split; [apply filter_sublist|].
  split.
  { intros s Hs. unfold online_of, offline_of. rewrite !filter_elem_of.
    destruct (is_online s); simpl; [left | right]; intuition congruence. }
  split; [apply filter_split_perm|].
  split; [exact Hlen|].
  unfold main. fold devices. fold statuses.
  destruct (online args), (offline args); simpl; auto.
Qed.

Lemma main_partition_witness :
  let statuses := device_statuses [Sample.tv; Sample.printer]
                                  {["AA:BB:CC:DD:EE:FF"]} in
  get_device_status Sample.tv {["AA:BB:CC:DD:EE:FF"]} ∈ online_of statuses
  \/ get_device_status Sample.tv {["AA:BB:CC:DD:EE:FF"]} ∈ offline_of statuses.
Proof.
  destruct (main_partition (mkArgs false false None None)
              [Sample.tv; Sample.printer] {["AA:BB:CC:DD:EE:FF"]})
    as (_ & _ & Hone & _).
  destruct (Hone (get_device_status Sample.tv {["AA:BB:CC:DD:EE:FF"]}))
    as [[H _] | [_ H]].
  - left.
  - by left.
  - by right.
Defined.

(* ===================================================================== *)
(** ** Comprehensions that can raise *)

Section Comprehension.

Context {A B : Type}.
Implicit Types (f : A -> result B) (l : list A).




Lemma comprehension_ok f (good : A -> bool) (P : B -> Prop) l :
  (forall x, good x = true -> exists y, f x = inr y /\ P y) ->
  forallb good l = true ->
  exists ys, comprehension f l = inr ys /\ Forall P ys.
Proof.
  intros Hgood. induction l as [|x l IH]; simpl; intros Hall.
  - by exists [].
  - apply andb_true_iff in Hall as [Hx Hl].
    destruct (Hgood x Hx) as [y [-> Hy]].
    destruct (IH Hl) as [ys [-> Hys]].
    exists (y :: ys). split; [done | by constructor].
Qed.


Lemma comprehension_error f (E : exn -> Prop) l e :
  (forall x e, x ∈ l -> f x = inl e -> E e) ->
  comprehension f l = inl e -> E e.
Proof.
  induction l as [|x l IH]; simpl; intros Hf Hc; [discriminate|].
  destruct (f x) as [e0|y] eqn:Hx.
  - injection Hc as <-. apply (Hf x e0); [left | done].
  - destruct (comprehension f l) as [e1|ys]; [|discriminate].
    injection Hc as <-. apply IH; [|done].
    intros x' e' Hin. apply Hf. by right.
Qed.

End Comprehension.

(* ===================================================================== *)
(** ** Dictionaries *)





(* ===================================================================== *)
(** ** The parser *)

Section ParserFacts.

Context `{V : Validators}.










Lemma build_list_unfold {A : Type} (init : dict -> result A) (device : dict)
    (key : string) :
  build_list init device key
  = match dict_get key device with
    | None => inl (KeyError key)
    | Some j =>
        match iterate j with
        | inl e => inl e
        | inr l => comprehension (build init) l
        end
    end.
Proof.
  unfold build_list, subscript. destruct (dict_get key device) as [j|]; [|done].
  simpl. by destruct (iterate j).
Qed.




End ParserFacts.

(* ===================================================================== *)
(** ** Sequencing in [result] *)

Lemma bind_inr {A B : Type} (x : result A) (f : A -> result B) (b : B) :
  (x ≫= f) = inr b -> exists a, x = inr a /\ f a = inr b.
Proof.
  unfold mbind, result_bind.
  destruct x as [e|a]; intros H; [discriminate | by exists a].
Qed.

Lemma bind_inl {A B : Type} (x : result A) (f : A -> result B) (e : exn) :
  (x ≫= f) = inl e -> x = inl e \/ exists a, x = inr a /\ f a = inl e.
Proof.
  unfold mbind, result_bind.
  destruct x as [e'|a]; intros H; [left; congruence | right; by exists a].
Qed.

Lemma subscript_inr (device : dict) (key : string) (j : json) :
  subscript device key = inr j -> dict_get key device = Some j.
Proof.
  unfold subscript. destruct (dict_get key device); [|discriminate].
  by intros [= ->].
Qed.

Lemma build_inr {A : Type} (init : dict -> result A) (x : json) (a : A) :
  build init x = inr a -> exists o, x = JObj o /\ init o = inr a.
Proof. destruct x; try discriminate. intros Hinit. by eexists. Qed.

Lemma has_object (p : json -> bool) (device : dict) (key : string) :
  has p device key = true -> exists j, dict_get key device = Some j /\ p j = true.
Proof. unfold has. destruct (dict_get key device) as [j|]; [by exists j | done]. Qed.

Lemma is_object_inv (j : json) : is_object j = true -> exists o, j = JObj o.
Proof. destruct j; try discriminate. by eexists. Qed.

Lemma is_array_inv (j : json) :
  is_array_of_objects j = true -> exists l, j = JArr l /\ forallb is_object l = true.
Proof. destruct j; try discriminate. by eexists. Qed.

Section ParserErrors.

Context `{V : Validators}.

Lemma validated_error {A : Type} (x : option A) (e : exn) :
  validated x = inl e -> e = ValidationError.
Proof. destruct x; [discriminate | by intros [= <-]]. Qed.

Lemma nested_object {A : Type} (init : dict -> result A) (device : dict)
    (key : string) (o : dict) :
  dict_get key device = Some (JObj o) ->
  (j ← subscript device key; build init j) = init o.
Proof. intros Hget. unfold subscript. by rewrite Hget. Qed.

Lemma build_list_array {A : Type} (init : dict -> result A) (device : dict)
    (key : string) (l : list json) :
  dict_get key device = Some (JArr l) ->
  build_list init device key = comprehension (build init) l.
Proof. intros Hget. rewrite build_list_unfold. by rewrite Hget. Qed.








Lemma build_list_error {A : Type} (init : dict -> result A)
    (device : dict) (key : string) (e : exn) :
  (forall o e, init o = inl e -> e = ValidationError) ->
  has is_array_of_objects device key = true ->
  build_list init device key = inl e -> e = ValidationError.
Proof.
  intros Hinit Hhas.
  apply has_object in Hhas as (j & Hget & Harr).
  apply is_array_inv in Harr as (l & -> & Hobj).
  rewrite (build_list_array _ _ _ l Hget).
  apply (comprehension_error _ (fun e => e = ValidationError)).
  intros x e' Hin.
  rewrite forallb_forall in Hobj. apply list_elem_of_In in Hin.
  destruct (is_object_inv x (Hobj x Hin)) as [o ->]. apply Hinit.
Qed.

(** With the nested entries in shape, validation is all that can fail. *)
Lemma parse_device_error (device : dict) (e : exn) :
  well_shaped device = true ->
  parse_device device = inl e -> e = ValidationError.
Proof.
  unfold well_shaped. rewrite !andb_true_iff.
  intros [[[[Hm Hu] Hifs] Hcs] Hps].
  apply has_object in Hm as (jm & Hjm & Hom).
  apply is_object_inv in Hom as [om ->].
  apply has_object in Hu as (ju & Hju & Hou).
  apply is_object_inv in Hou as [ou ->].
  unfold parse_device.
  rewrite (nested_object Model_init _ _ _ Hjm).
  rewrite (nested_object Unit_init _ _ _ Hju).
  intros H.
  apply bind_inl in H as [H | (m & _ & H)]; [by eapply validated_error|].
  apply bind_inl in H as [H | (u & _ & H)]; [by eapply validated_error|].
  apply bind_inl in H as [H | (ifs & _ & H)].
  { eapply build_list_error; [|exact Hifs|exact H].
    intros o e' He. by eapply validated_error. }
  apply bind_inl in H as [H | (cs & _ & H)].
  { eapply build_list_error; [|exact Hcs|exact H].
    intros o e' He. by eapply validated_error. }
  apply bind_inl in H as [H | (ps & _ & H)].
  { eapply build_list_error; [|exact Hps|exact H].
    intros o e' He. by eapply validated_error. }
  by eapply validated_error.
Qed.

End ParserErrors.

(* ===================================================================== *)
(** ** Records with the required fields only *)

Lemma omits_get (names : list string) (o : dict) (key : string) :
  omits names (JObj o) = true -> In key names -> dict_get key o = None.
Proof.
  unfold omits. rewrite forallb_forall. intros Hall Hin.
  specialize (Hall key Hin). by destruct (dict_get key o).
Qed.

Lemma forallb_andb {A : Type} (p q : A -> bool) (l : list A) :
  forallb p l = true -> forallb q l = true ->
  forallb (fun x => p x && q x) l = true.
Proof.
  rewrite !forallb_forall. intros Hp Hq x Hin.
  by rewrite (Hp x Hin), (Hq x Hin).
Qed.

Section ParserDefaults.

Context `{V : Validators}.

Lemma optional_missing {A : Type} (v : json -> option A) (o : dict)
    (key : string) :
  dict_get key o = None -> optional v o key = Some None.
Proof. intros Hget. unfold optional. by rewrite Hget. Qed.

Lemma build_object {A : Type} (init : dict -> result A) (o : dict) :
  build init (JObj o) = init o.
Proof. reflexivity. Qed.

Lemma Model_init_minimal (o : dict) :
  Model_required_ok (JObj o) = true ->
  omits ["manufacturer"; "modelNumber"; "hardwareVersion"; "description"]
        (JObj o) = true ->
  exists dt, Model_init o = inr (mkModel dt None None None None).
Proof.
  unfold Model_required_ok, field_valid, Model_init. intros Hreq Hom.
  destruct (required validate_str o "deviceType") as [dt|]; [|done].
  exists dt.
  rewrite (optional_missing _ _ "manufacturer"), (optional_missing _ _ "modelNumber"),
    (optional_missing _ _ "hardwareVersion"), (optional_missing _ _ "description");
    try done; apply (omits_get _ _ _ Hom); simpl; tauto.
Qed.

Lemma Unit_init_minimal (o : dict) :
  omits ["serialNumber"; "firmwareVersion"; "firmwareDate"] (JObj o) = true ->
  Unit_init o = inr (mkUnit None None None).
Proof.
  unfold Unit_init. intros Hom.
  rewrite (optional_missing _ _ "serialNumber"), (optional_missing _ _ "firmwareVersion"),
    (optional_missing _ _ "firmwareDate");
    try done; apply (omits_get _ _ _ Hom); simpl; tauto.
Qed.

Lemma Interface_build_minimal (x : json) :
  Interface_required_ok x && omits ["band"] x = true ->
  exists i, build Interface_init x = inr i /\ band i = None.
Proof.
  rewrite andb_true_iff. intros [Hreq Hom].
  destruct x as [| | | | | |o]; try discriminate.
  unfold Interface_required_ok, field_valid in Hreq.
  rewrite build_object. unfold Interface_init.
  rewrite (optional_missing _ _ "band");
    [|apply (omits_get _ _ _ Hom); simpl; tauto].
  destruct (required validate_str o "macAddress") as [ma|]; [|done].
  destruct (required validate_str o "interfaceType") as [it|]; [|done].
  by eexists.
Qed.

Lemma Connection_build_minimal (x : json) :
  Connection_required_ok x
  && omits ["ipAddress"; "ipv6Address"; "parentDeviceID"] x = true ->
  exists c, build Connection_init x = inr c
            /\ ipAddress c = None /\ ipv6Address c = None
            /\ parentDeviceID c = None.
Proof.
  rewrite andb_true_iff. intros [Hreq Hom].
  destruct x as [| | | | | |o]; try discriminate.
  unfold Connection_required_ok, field_valid in Hreq.
  rewrite build_object. unfold Connection_init.
  rewrite (optional_missing _ _ "ipAddress"), (optional_missing _ _ "ipv6Address"),
    (optional_missing _ _ "parentDeviceID");
    try (apply (omits_get _ _ _ Hom); simpl; tauto).
  destruct (required validate_str o "macAddress") as [ma|]; [|done].
  by eexists.
Qed.

Lemma Property_build_ok (x : json) :
  Property_required_ok x = true ->
  exists p, build Property_init x = inr p /\ True.
Proof.
  intros Hreq. destruct x as [| | | | | |o]; try discriminate.
  unfold Property_required_ok, field_valid in Hreq.
  rewrite build_object. unfold Property_init.
  destruct (required validate_str o "name") as [nm|]; [|done].
  destruct (required validate_str o "value") as [vl|]; [|done].
  by eexists.
Qed.

Lemma Device_init_minimal (device : dict) (m : Model) (u : Unit)
    (ifs : list Interface) (cs : list Connection) (ps : list Property) :
  field_valid validate_uuid device "deviceID" = true ->
  field_valid validate_int device "lastChangeRevision" = true ->
  field_valid validate_bool device "isAuthority" = true ->
  field_valid validate_int device "maxAllowedProperties" = true ->
  omits ["nodeType"; "friendlyName"] (JObj device) = true ->
  exists id rev au mx,
    Device_init device m u ifs cs ps
    = inr (mkDevice id rev m u au None None ifs cs ps mx).
Proof.
  unfold field_valid, Device_init. intros Hid Hrev Hau Hmx Hom.
  destruct (required validate_uuid device "deviceID") as [id|]; [|done].
  destruct (required validate_int device "lastChangeRevision") as [rev|]; [|done].
  destruct (required validate_bool device "isAuthority") as [au|]; [|done].
  destruct (required validate_int device "maxAllowedProperties") as [mx|]; [|done].
  exists id, rev, au, mx.
  rewrite (optional_missing _ _ "nodeType"), (optional_missing _ _ "friendlyName");
    try done; apply (omits_get _ _ _ Hom); simpl; tauto.
Qed.

Lemma array_entry (device : dict) (key : string) :
  has is_array_of_objects device key = true ->
  exists l, dict_get key device = Some (JArr l).
Proof.
  intros Hhas. apply has_object in Hhas as (j & Hget & Harr).
  apply is_array_inv in Harr as (l & -> & _). by exists l.
Qed.

End ParserDefaults.

Section ParserClaims.

Context `{V : Validators}.


(** C7.  A record that has every required field, valid, and leaves out
    every optional field parses, and every optional field of the device
    is [None]. *)
Theorem parse_device_required_only (device : dict) :
  well_shaped device = true ->
  required_fields_ok device = true ->
  optional_omitted device = true ->
  exists d, parse_device device = inr d /\ optional_absent d.
Proof.
  unfold well_shaped, required_fields_ok, optional_omitted.
  rewrite !andb_true_iff.
  intros [[[[Hm Hu] Hifs] Hcs] Hps].
  intros [[[[[[[Hid Hrev] Hmr] Hau] Hmx] Hir] Hcr] Hpr].
  intros [[[[Hod Hom] Hou] Hoi] Hoc].
  apply has_object in Hm as (jm & Hjm & Hobjm).
  apply is_object_inv in Hobjm as [om ->].
  apply has_object in Hu as (ju & Hju & Hobju).
  apply is_object_inv in Hobju as [ou ->].
  apply array_entry in Hifs as [li Hli].
  apply array_entry in Hcs as [lc Hlc].
  apply array_entry in Hps as [lp Hlp].
  unfold has in Hom, Hou. rewrite Hjm in Hmr, Hom. rewrite Hju in Hou.
  unfold elements_ok in Hir, Hcr, Hpr. unfold items_omit in Hoi, Hoc.
  rewrite Hli in Hir, Hoi. rewrite Hlc in Hcr, Hoc. rewrite Hlp in Hpr.
  destruct (Model_init_minimal om Hmr Hom) as [dt Hmodel].
  pose proof (Unit_init_minimal ou Hou) as Hunit.
  destruct (comprehension_ok (build Interface_init) _ (fun i => band i = None) li
              Interface_build_minimal (forallb_andb _ _ _ Hir Hoi))
    as (ifs & Hbi & Hbands).
  destruct (comprehension_ok (build Connection_init) _
              (fun c => ipAddress c = None /\ ipv6Address c = None
                        /\ parentDeviceID c = None) lc
              Connection_build_minimal (forallb_andb _ _ _ Hcr Hoc))
    as (cs & Hbc & Hconns).
  destruct (comprehension_ok (build Property_init) _ (fun _ => True) lp
              Property_build_ok Hpr) as (ps & Hbp & _).
  destruct (Device_init_minimal device (mkModel dt None None None None)
              (mkUnit None None None) ifs cs ps Hid Hrev Hau Hmx Hod)
    as (id & rev & au & mx & Hdev).
  eexists. split.
  - unfold parse_device.
    rewrite (nested_object Model_init _ _ _ Hjm), Hmodel.
    rewrite (nested_object Unit_init _ _ _ Hju), Hunit.
    rewrite (build_list_array _ _ _ _ Hli), Hbi.
    rewrite (build_list_array _ _ _ _ Hlc), Hbc.
    rewrite (build_list_array _ _ _ _ Hlp), Hbp.
    exact Hdev.
  - unfold optional_absent. simpl. repeat (split; [reflexivity|]).
    split; assumption.
Qed.


End ParserClaims.



Lemma parse_device_required_only_witness :
  exists d, parse_device Sample.tv_record = inr d /\ optional_absent d.
Proof.
  apply (parse_device_required_only Sample.tv_record); reflexivity.
Defined.


(* ===================================================================== *)
(** * Further properties of the program *)

(** ** Case mapping *)

Lemma lower_upper_char (c : ascii) :
  Str.lower_char (Str.upper_char c) = Str.lower_char c.
Proof. destruct c as [[] [] [] [] [] [] [] []]; reflexivity. Qed.

Lemma upper_upper_char (c : ascii) :
  Str.upper_char (Str.upper_char c) = Str.upper_char c.
Proof. destruct c as [[] [] [] [] [] [] [] []]; reflexivity. Qed.

Lemma lower_upper (s : string) : Str.lower (Str.upper s) = Str.lower s.
Proof.
  induction s as [|c s IH]; simpl; [done|]. by rewrite lower_upper_char, IH.
Qed.

Lemma upper_upper (s : string) : Str.upper (Str.upper s) = Str.upper s.
Proof.
  induction s as [|c s IH]; simpl; [done|]. by rewrite upper_upper_char, IH.
Qed.

Lemma eq_nocase_lower (a b : string) :
  Str.eq_nocase a b -> Str.lower a = Str.lower b.
Proof.
  unfold Str.eq_nocase. intros Hab.
  by rewrite <- (lower_upper a), <- (lower_upper b), Hab.
Qed.

Lemma eq_nocase_truthy (a b : string) :
  Str.eq_nocase a b -> Str.truthy a = Str.truthy b.
Proof.
  unfold Str.eq_nocase. destruct a, b; simpl; try done; discriminate.
Qed.

Lemma upper_truthy (s : string) : Str.truthy (Str.upper s) = Str.truthy s.
Proof. by destruct s. Qed.

(** ** More on [filter_devices] *)

Lemma filter_filter_same {A : Type} (f : A -> bool) (l : list A) :
  List.filter f (List.filter f l) = List.filter f l.
Proof.
  induction l as [|x l IH]; simpl; [done|].
  destruct (f x) eqn:Hf; simpl; rewrite ?Hf, IH; done.
Qed.

(** The name branch can as well run last. *)
Lemma filter_devices_name_last (D : list Device) (n m : option string) :
  filter_devices D n m = filter_devices (filter_devices D None m) n None.
Proof.
  unfold filter_devices. simpl.
  destruct (given n), (given m); try reflexivity. apply filter_swap.
Qed.

(** X1.  For a non-empty name argument, the name branch keeps a device
    exactly when the lower-cased argument occurs inside the lower-cased
    friendly name; a device without friendly name, or with an empty one,
    never passes. *)
Theorem filter_devices_name_spec (D : list Device) (n : string)
    (m : option string) (d : Device) :
  n <> "" ->
  (d ∈ filter_devices D (Some n) m
   <-> d ∈ filter_devices D None m
       /\ exists before after,
            Str.lower (name_or_empty d) = before ++ Str.lower n ++ after)
  /\ (name_or_empty d = "" -> d ∉ filter_devices D (Some n) m).
Proof.
  intros Hn.
  assert (Hiff : d ∈ filter_devices D (Some n) m
                 <-> d ∈ filter_devices D None m
                     /\ Str.contains (Str.lower n) (Str.lower (name_or_empty d)) = true).
  { rewrite filter_devices_name_last. unfold filter_devices at 1.
    rewrite (given_nonempty n Hn). simpl. rewrite filter_elem_of.
    unfold name_matches. reflexivity. }
  split.
  - rewrite Hiff. by rewrite contains_spec.
  - intros Hempty Hin. apply Hiff in Hin as [_ Hc]. rewrite Hempty in Hc.
    destruct n; [done | discriminate].
Qed.

Lemma filter_devices_name_spec_witness :
  Sample.tv ∈ filter_devices [Sample.tv; Sample.printer] (Some "ROOM") None.
Proof.
  apply (filter_devices_name_spec [Sample.tv; Sample.printer] "ROOM" None
           Sample.tv); [done|].
  split; [left|]. by exists "living ", " tv".
Defined.

(** X2.  Arguments that differ only in the case of their letters select
    the same devices: the name argument is lower-cased and the MAC
    argument upper-cased before they are compared. *)
Theorem filter_devices_case_blind (D : list Device) (n n' m m' : string) :
  Str.eq_nocase n n' -> Str.eq_nocase m m' ->
  filter_devices D (Some n) (Some m) = filter_devices D (Some n') (Some m').
Proof.
  intros Hn Hm. unfold filter_devices, given.
  rewrite (eq_nocase_truthy n n' Hn), (eq_nocase_truthy m m' Hm).
  assert (Hname : forall l, List.filter (name_matches n) l
                            = List.filter (name_matches n') l).
  { intros l. apply filter_ext. intros d. unfold name_matches.
    by rewrite (eq_nocase_lower n n' Hn). }
  unfold Str.eq_nocase in Hm.
  destruct (Str.truthy n'), (Str.truthy m'); rewrite ?Hname, ?Hm; reflexivity.
Qed.

Lemma filter_devices_case_blind_witness :
  filter_devices [Sample.tv; Sample.printer] (Some "Living") (Some "aa:BB:cc:dd:ee:ff")
  = filter_devices [Sample.tv; Sample.printer] (Some "LIVING") (Some "AA:bb:CC:DD:EE:FF").
Proof.
  apply (filter_devices_case_blind [Sample.tv; Sample.printer]); reflexivity.
Defined.

(** X3.  With both arguments a device is kept exactly when each filter
    alone keeps it. *)
Theorem filter_devices_both (D : list Device) (n m : option string)
    (d : Device) :
  d ∈ filter_devices D n m
  <-> d ∈ filter_devices D n None /\ d ∈ filter_devices D None m.
Proof.
  unfold filter_devices. simpl.
  destruct (given n), (given m); rewrite ?filter_elem_of; tauto.
Qed.

(** X4.  Filtering a filtered list again with the same arguments changes
    nothing. *)
Theorem filter_devices_idempotent (D : list Device) (n m : option string) :
  filter_devices (filter_devices D n m) n m = filter_devices D n m.
Proof.
  unfold filter_devices.
  destruct (given n) as [a|], (given m) as [b|]; try reflexivity.
  - rewrite (filter_swap (name_matches a) (has_mac (Str.upper b))).
    by rewrite !filter_filter_same.
  - apply filter_filter_same.
  - apply filter_filter_same.
Qed.

(** X5.  Devices are judged one by one: the filter of two lists put
    together is the two filtered lists put together. *)
Theorem filter_devices_app (D1 D2 : list Device) (n m : option string) :
  filter_devices (D1 ++ D2)%list n m
  = (filter_devices D1 n m ++ filter_devices D2 n m)%list.
Proof.
  unfold filter_devices.
  destruct (given n), (given m); rewrite ?List.filter_app; reflexivity.
Qed.

(** ** More on the status of a device *)

Lemma is_online_has_online_mac (d : Device) (S : gset string) :
  is_online (get_device_status d S) = has_online_mac S d.
Proof.
  unfold has_online_mac, get_device_status. simpl.
  induction (knownInterfaces d) as [|i l IH]; simpl; [done|].
  by destruct (bool_decide (macAddress i ∈ S)).
Qed.

Lemma has_online_mac_spec (d : Device) (S : gset string) :
  has_online_mac S d = true
  <-> exists i, i ∈ knownInterfaces d /\ macAddress i ∈ S.
Proof.
  unfold has_online_mac. rewrite existsb_exists.
  split; intros [i [Hin Hi]]; exists i.
  - apply bool_decide_eq_true in Hi. by rewrite list_elem_of_In.
  - split; [by apply list_elem_of_In | by apply bool_decide_eq_true].
Qed.

(** X6.  A larger online set never turns a device offline: the online
    interfaces under the smaller set are among those under the larger
    one, in order. *)
Theorem get_device_status_mono (d : Device) (S S' : gset string) :
  S ⊆ S' ->
  online_interfaces (get_device_status d S)
    `sublist_of` online_interfaces (get_device_status d S')
  /\ (is_online (get_device_status d S) = true ->
      is_online (get_device_status d S') = true).
Proof.
  intros Hsub. split.
  - simpl. apply filter_greatest; [apply filter_sublist|].
    apply Forall_forall. intros i Hi. apply filter_elem_of in Hi as [_ Hi].
    apply bool_decide_eq_true in Hi. apply bool_decide_eq_true. set_solver.
  - rewrite !is_online_has_online_mac, !has_online_mac_spec.
    intros [i [Hin Hi]]. exists i. split; [done | set_solver].
Qed.

Lemma get_device_status_mono_witness :
  is_online (get_device_status Sample.tv Fixtures.both_macs) = true.
Proof.
  apply (get_device_status_mono Sample.tv {["AA:BB:CC:DD:EE:FF"]}
           Fixtures.both_macs).
  - unfold Fixtures.both_macs. set_solver.
  - reflexivity.
Defined.

(** X7.  The status of a device depends on the online set only through
    the addresses of the device's own interfaces. *)
Theorem get_device_status_local (d : Device) (S S' : gset string) :
  (forall i, i ∈ knownInterfaces d -> macAddress i ∈ S <-> macAddress i ∈ S') ->
  get_device_status d S = get_device_status d S'.
Proof.
  intros Hagree. unfold get_device_status.
  assert (Hf : List.filter (fun i => bool_decide (macAddress i ∈ S)) (knownInterfaces d)
               = List.filter (fun i => bool_decide (macAddress i ∈ S')) (knownInterfaces d)).
  { apply filter_ext_in. intros i Hin. apply list_elem_of_In in Hin.
    apply bool_decide_ext. by apply Hagree. }
  by rewrite Hf.
Qed.

Lemma get_device_status_local_witness :
  get_device_status Sample.tv {["AA:BB:CC:DD:EE:FF"]}
  = get_device_status Sample.tv Fixtures.both_macs.
Proof.
  apply get_device_status_local. intros i Hi.
  apply list_elem_of_singleton in Hi as ->. simpl.
  unfold Fixtures.both_macs. set_solver.
Defined.

(** ** More on [main] *)

Lemma filter_map_comm {A B : Type} (p : B -> bool) (f : A -> B) (l : list A) :
  List.filter p (List.map f l) = List.map f (List.filter (fun x => p (f x)) l).
Proof.
  induction l as [|x l IH]; simpl; [done|].
  destruct (p (f x)); simpl; by rewrite IH.
Qed.

(** X8.  The online section holds the statuses of the selected devices
    that have a known interface with its address in the online set, in
    the order of the inventory, and the offline section those of the
    other selected devices. *)
Theorem main_sections_content (devices : list Device) (S : gset string) :
  online_of (device_statuses devices S)
  = device_statuses (List.filter (has_online_mac S) devices) S
  /\ offline_of (device_statuses devices S)
     = device_statuses
         (List.filter (fun d => negb (has_online_mac S d)) devices) S.
Proof.
  unfold online_of, offline_of, device_statuses. rewrite !filter_map_comm.
  split; f_equal; apply filter_ext; intros d;
    by rewrite is_online_has_online_mac.
Qed.

(** X9.  A status of the online list shows at least one interface and
    only interfaces whose address is in the online set; a status of the
    offline list shows none. *)
Theorem main_sections_interfaces (devices : list Device) (S : gset string)
    (st : DeviceStatus) :
  (st ∈ online_of (device_statuses devices S) ->
   online_interfaces st <> []
   /\ Forall (fun i => macAddress i ∈ S) (online_interfaces st))
  /\ (st ∈ offline_of (device_statuses devices S) ->
      online_interfaces st = []).
Proof.
  unfold online_of, offline_of, device_statuses.
  split; intros Hin; apply filter_elem_of in Hin as [Hin Hon];
    apply list_elem_of_In, in_map_iff in Hin as (d & <- & _).
  - split.
    + simpl in *. by destruct (List.filter _ (knownInterfaces d)).
    + apply Forall_forall. intros i Hi. simpl in Hi.
      apply filter_elem_of in Hi as [_ Hi]. by apply bool_decide_eq_true in Hi.
  - simpl in *. by destruct (List.filter _ (knownInterfaces d)).
Qed.

Lemma main_sections_interfaces_witness :
  online_interfaces (get_device_status Sample.printer Fixtures.both_macs) = [].
Proof.
  apply (main_sections_interfaces [Sample.tv; Sample.printer]
           Fixtures.both_macs).
  unfold offline_of. apply filter_elem_of. split; [|reflexivity].
  right. left.
Defined.

Lemma has_online_mac_empty (d : Device) : has_online_mac ∅ d = false.
Proof.
  unfold has_online_mac.
  induction (knownInterfaces d) as [|i l IH]; simpl; [done|].
  rewrite IH. rewrite bool_decide_eq_false_2; [done | set_solver].
Qed.

Lemma statuses_nothing_online (l : list Device) :
  online_of (device_statuses l ∅) = []
  /\ offline_of (device_statuses l ∅) = device_statuses l ∅.
Proof.
  unfold online_of, offline_of, device_statuses.
  induction l as [|d l [IHon IHoff]]; [done|].
  cbn [List.map List.filter].
  rewrite is_online_has_online_mac, has_online_mac_empty. cbn [negb].
  by rewrite IHon, IHoff.
Qed.

(** X10.  When the router reports no address at all, nothing is online:
    the online list is empty, the offline list holds every selected
    device, and the summary counts them all as offline. *)
Theorem main_nothing_online (args : Args) (inventory : list Device) :
  let devices := selected_devices args inventory in
  online_of (device_statuses devices ∅) = []
  /\ offline_of (device_statuses devices ∅) = device_statuses devices ∅
  /\ match summary (main args inventory ∅) with
     | Some counts => counts = (length devices, 0, length devices)
     | None => online args = true \/ offline args = true
     end.
Proof.
  intros devices.
  destruct (statuses_nothing_online devices) as [Hon Hoff].
  split; [exact Hon|]. split; [exact Hoff|].
  unfold main. fold devices. rewrite Hon, Hoff.
  destruct (online args), (offline args); simpl; auto.
  unfold device_statuses. by rewrite length_map.
Qed.

(** X11.  [--online] alone prints the online section only and
    [--offline] alone the offline section only, without summary; whatever
    the flags, at least one of the two sections is printed. *)
Theorem main_single_flag (inventory : list Device) (S : gset string)
    (n m : option string) :
  let only_on := main (mkArgs true false n m) inventory S in
  let only_off := main (mkArgs false true n m) inventory S in
  (is_Some (online_section only_on) /\ offline_section only_on = None
   /\ summary only_on = None)
  /\ (online_section only_off = None /\ is_Some (offline_section only_off)
      /\ summary only_off = None)
  /\ forall args, is_Some (online_section (main args inventory S))
                  \/ is_Some (offline_section (main args inventory S)).
Proof.
  simpl. repeat split; try done.
  intros args. unfold main. simpl.
  destruct (online args), (offline args); simpl; eauto.
Qed.

(** X12.  The summary line names a filter exactly when one of the two
    filter arguments is non-empty, and then a filter was applied; with a
    non-empty name argument it names the friendly name, also when a MAC
    filter is applied as well.  Without filter part, the selected devices
    are the whole inventory after the inventory rule. *)
Theorem filter_msg_spec (args : Args) (inventory : list Device) :
  (Present.filter_msg args = ""
   <-> given (friendly args) = None /\ given (mac args) = None)
  /\ (Present.filter_msg args = "" ->
      selected_devices args inventory = drop_unlabelled inventory)
  /\ (forall n, given (friendly args) = Some n ->
        Present.filter_msg args = " matching friendly name '" ++ n ++ "'")
  /\ (forall m, given (friendly args) = None -> given (mac args) = Some m ->
        Present.filter_msg args = " matching MAC '" ++ m ++ "'").
Proof.
  assert (Hempty : Present.filter_msg args = ""
                   <-> given (friendly args) = None /\ given (mac args) = None).
  { unfold Present.filter_msg.
    destruct (given (friendly args)), (given (mac args)); simpl;
      split; try done; intros [? ?]; done. }
  split; [exact Hempty|]. split; [|split].
  - intros Hmsg. apply Hempty in Hmsg as [Hn Hm].
    unfold selected_devices, filter_devices. by rewrite Hn, Hm.
  - intros n Hn. unfold Present.filter_msg, Present.or_else. rewrite Hn.
    by destruct (given (mac args)).
  - intros m Hn Hm. unfold Present.filter_msg, Present.or_else. rewrite Hn, Hm.
    unfold given in Hm. destruct (mac args) as [s|]; [|done].
    destruct (Str.truthy s); [|done]. by injection Hm as ->.
Qed.

Lemma filter_msg_spec_witness :
  Present.filter_msg (mkArgs false false (Some "tv") (Some "aa:bb:cc:dd:ee:ff"))
  = " matching friendly name 'tv'".
Proof.
  destruct (filter_msg_spec
              (mkArgs false false (Some "tv") (Some "aa:bb:cc:dd:ee:ff")) [])
    as (_ & _ & Hname & _).
  apply (Hname "tv"). reflexivity.
Defined.

(** ** The online MAC set *)

Section ComprehensionItems.

Context {A B : Type}.
Implicit Types (f : A -> result B) (l : list A).

Lemma comprehension_Forall2 f l ys :
  comprehension f l = inr ys <-> Forall2 (fun x y => f x = inr y) l ys.
Proof.
  revert ys. induction l as [|x l IH]; intros ys; simpl.
  - split.
    + intros [= <-]. constructor.
    + intros H. by inversion H.
  - split.
    + destruct (f x) as [e|y] eqn:Hx; [discriminate|].
      destruct (comprehension f l) as [e|ys'] eqn:Hl; [discriminate|].
      intros [= <-]. constructor; [done | by apply IH].
    + intros H. inversion H as [|? y ? ys' Hx Hrest]; subst.
      rewrite Hx. apply IH in Hrest. by rewrite Hrest.
Qed.

Lemma comprehension_elem_r f l ys y :
  comprehension f l = inr ys -> y ∈ ys -> exists x, x ∈ l /\ f x = inr y.
Proof.
  rewrite comprehension_Forall2. intros HF Hy.
  induction HF as [|x y' l ys Hx _ IH].
  - by apply not_elem_of_nil in Hy.
  - apply elem_of_cons in Hy as [-> | Hy].
    + exists x. split; [left | done].
    + destruct (IH Hy) as (x' & Hin & Hx'). exists x'. split; [by right | done].
Qed.

Lemma comprehension_elem_l f l ys x :
  comprehension f l = inr ys -> x ∈ l -> exists y, y ∈ ys /\ f x = inr y.
Proof.
  rewrite comprehension_Forall2. intros HF Hx.
  induction HF as [|x' y l ys Hx' _ IH].
  - by apply not_elem_of_nil in Hx.
  - apply elem_of_cons in Hx as [-> | Hx].
    + exists y. split; [left | done].
    + destruct (IH Hx) as (y' & Hin & Hy'). exists y'. split; [by right | done].
Qed.

End ComprehensionItems.

Lemma conn_mac_str (conn : json) (mac : string) :
  conn_mac conn = inr (JStr mac)
  <-> subscript_json conn "macAddress" = inr (JStr mac).
Proof.
  unfold conn_mac. destruct (subscript_json conn "macAddress") as [e|v]; simpl.
  - split; discriminate.
  - destruct (hashable v) eqn:Hv; split; intros H; try discriminate; try done.
    injection H as ->. discriminate.
Qed.

Lemma str_members_elem (values : list json) (mac : string) :
  mac ∈ str_members values <-> JStr mac ∈ values.
Proof.
  unfold str_members. rewrite elem_of_list_to_set, list_elem_of_omap. split.
  - intros (j & Hin & Hj). destruct j; try discriminate. by injection Hj as ->.
  - intros Hin. by exists (JStr mac).
Qed.

Lemma get_online_macs_elem (response : json) (S : gset string) (mac : string) :
  get_online_macs response = inr S -> mac ∈ S <-> reports response mac.
Proof.
  unfold get_online_macs. intros H.
  apply bind_inr in H as (out & Hout & H).
  apply bind_inr in H as (nodes_j & Hnj & H).
  apply bind_inr in H as (nodes & Hnodes & H).
  apply bind_inr in H as (values & Hvalues & H).
  injection H as <-.
  rewrite str_members_elem, list_elem_of_In, in_concat. split.
  - intros (vs & Hvs & Hmac).
    apply list_elem_of_In in Hvs. apply list_elem_of_In in Hmac.
    destruct (comprehension_elem_r _ _ _ _ Hvalues Hvs) as (node & Hnode & Hnm).
    unfold node_macs in Hnm.
    apply bind_inr in Hnm as (cs & Hcs & Hnm).
    apply bind_inr in Hnm as (conns & Hconns & Hnm).
    destruct (comprehension_elem_r _ _ _ _ Hnm Hmac) as (conn & Hconn & Hcm).
    apply conn_mac_str in Hcm.
    by exists out, nodes_j, nodes, node, cs, conns, conn.
  - intros (out' & nj' & nodes' & node & cs & conns & conn
            & Hout' & Hnj' & Hnodes' & Hnode & Hcs & Hconns & Hconn & Hmac).
    rewrite Hout in Hout'. injection Hout' as <-.
    rewrite Hnj in Hnj'. injection Hnj' as <-.
    rewrite Hnodes in Hnodes'. injection Hnodes' as <-.
    destruct (comprehension_elem_l _ _ _ _ Hvalues Hnode) as (vs & Hvs & Hnm).
    exists vs. split; [by apply list_elem_of_In|].
    unfold node_macs in Hnm. rewrite Hcs in Hnm. simpl in Hnm.
    unfold mbind, result_bind in Hnm. rewrite Hconns in Hnm.
    destruct (comprehension_elem_l _ _ _ _ Hnm Hconn) as (v & Hv & Hcm).
    apply conn_mac_str in Hmac. rewrite Hmac in Hcm. injection Hcm as <-.
    by apply list_elem_of_In.
Qed.

(** X13.  When [get_online_macs] returns, the set holds exactly the
    addresses the answer lists for a connection of a node, and a device
    is online exactly when the answer lists the address of one of its
    known interfaces. *)
Theorem get_online_macs_spec (response : json) (S : gset string) :
  get_online_macs response = inr S ->
  (forall mac, mac ∈ S <-> reports response mac)
  /\ (forall d, is_online (get_device_status d S) = true
                <-> exists i, i ∈ knownInterfaces d
                              /\ reports response (macAddress i)).
Proof.
  intros Hget. split.
  - intros mac. by apply get_online_macs_elem.
  - intros d. rewrite is_online_has_online_mac, has_online_mac_spec.
    split; intros (i & Hin & Hi); exists i; (split; [done|]);
      by apply (get_online_macs_elem response S).
Qed.

Lemma get_online_macs_spec_witness :
  is_online (get_device_status Sample.tv Fixtures.both_macs) = true
  <-> exists i, i ∈ knownInterfaces Sample.tv
                /\ reports Fixtures.answer (macAddress i).
Proof.
  apply (get_online_macs_spec Fixtures.answer Fixtures.both_macs).
  reflexivity.
Defined.

Lemma subscript_json_error (x : json) (key : string) (e : exn) :
  subscript_json x key = inl e -> e = TypeError \/ e = KeyError key.
Proof.
  destruct x; simpl; try (intros [= <-]; by left).
  unfold subscript. destruct (dict_get key fields); [discriminate|].
  intros [= <-]. by right.
Qed.

Lemma iterate_error (j : json) (e : exn) : iterate j = inl e -> e = TypeError.
Proof. destruct j; simpl; try discriminate; by intros [= <-]. Qed.

Lemma conn_mac_error (conn : json) (e : exn) :
  conn_mac conn = inl e -> answer_error e.
Proof.
  unfold conn_mac. intros H. apply bind_inl in H as [H | (v & _ & H)].
  - apply subscript_json_error in H as [-> | ->]; [by left|].
    right. exists "macAddress". split; [done | simpl; tauto].
  - destruct (hashable v); [discriminate|]. injection H as <-. by left.
Qed.

Lemma node_macs_error (node : json) (e : exn) :
  node_macs node = inl e -> answer_error e.
Proof.
  unfold node_macs. intros H. apply bind_inl in H as [H | (cs & _ & H)].
  - apply subscript_json_error in H as [-> | ->]; [by left|].
    right. exists "connections". split; [done | simpl; tauto].
  - apply bind_inl in H as [H | (conns & _ & H)].
    + apply iterate_error in H as ->. by left.
    + apply (comprehension_error _ answer_error) in H; [done|].
      intros conn e' _. apply conn_mac_error.
Qed.

Lemma conn_ok_mac (conn : json) :
  conn_ok conn = true -> exists v, conn_mac conn = inr v /\ True.
Proof.
  destruct conn as [| | | | | |o]; try discriminate. simpl.
  unfold conn_mac, subscript_json, subscript.
  destruct (dict_get "macAddress" o) as [v|]; [|discriminate].
  intros Hv. exists v. simpl. unfold mbind, result_bind. by rewrite Hv.
Qed.

Lemma node_ok_macs (node : json) :
  node_ok node = true -> exists vs, node_macs node = inr vs /\ True.
Proof.
  destruct node as [| | | | | |o]; try discriminate. simpl.
  unfold node_macs, subscript_json, subscript.
  destruct (dict_get "connections" o) as [cs|]; [|discriminate].
  destruct cs as [| | | | |conns|]; try discriminate.
  intros Hall.
  destruct (comprehension_ok conn_mac conn_ok (fun _ => True) conns
              conn_ok_mac Hall) as (vs & Hvs & _).
  exists vs. split; [|done]. simpl. unfold mbind, result_bind. by rewrite Hvs.
Qed.

(** X14.  An answer of the expected shape (an [output] object whose
    [nodeWirelessConnections] is an array of objects, each with an array
    [connections] of objects that have a scalar [macAddress]) always
    gives a set.  When no set comes back, the exception is a [TypeError]
    or a [KeyError] on one of the four keys the function reads. *)
Theorem get_online_macs_total (response : json) :
  (answer_ok response = true -> exists S, get_online_macs response = inr S)
  /\ (forall e, get_online_macs response = inl e ->
        answer_ok response = false /\ answer_error e).
Proof.
  assert (Hok : answer_ok response = true ->
                exists S, get_online_macs response = inr S).
  { destruct response as [| | | | | |r]; try discriminate. simpl.
    destruct (dict_get "output" r) as [out|] eqn:Hout; [|discriminate].
    destruct out as [| | | | | |out]; try discriminate.
    destruct (dict_get "nodeWirelessConnections" out) as [nj|] eqn:Hnj;
      [|discriminate].
    destruct nj as [| | | | |nodes|]; try discriminate.
    intros Hall.
    destruct (comprehension_ok node_macs node_ok (fun _ => True) nodes
                node_ok_macs Hall) as (values & Hvalues & _).
    exists (str_members (List.concat values)).
    unfold get_online_macs, subscript_json, subscript. rewrite Hout. simpl.
    rewrite Hnj. simpl. unfold mbind, result_bind. by rewrite Hvalues. }
  split; [exact Hok|].
  intros e He. split.
  - destruct (answer_ok response); [|done].
    destruct (Hok eq_refl) as [S HS]. congruence.
  - unfold get_online_macs in He.
    apply bind_inl in He as [H | (out & _ & He)].
    { apply subscript_json_error in H as [-> | ->]; [by left|].
      right. exists "output". split; [done | simpl; tauto]. }
    apply bind_inl in He as [H | (nj & _ & He)].
    { apply subscript_json_error in H as [-> | ->]; [by left|].
      right. exists "nodeWirelessConnections". split; [done | simpl; tauto]. }
    apply bind_inl in He as [H | (nodes & _ & He)].
    { apply iterate_error in H as ->. by left. }
    apply bind_inl in He as [H | (values & _ & He)]; [|discriminate].
    apply (comprehension_error _ answer_error) in H; [done|].
    intros node e' _. apply node_macs_error.
Qed.

Lemma get_online_macs_total_witness :
  (exists S, get_online_macs Fixtures.answer = inr S)
  /\ answer_error (KeyError "output").
Proof.
  destruct (get_online_macs_total Fixtures.answer) as [Hok _].
  destruct (get_online_macs_total Fixtures.refused) as [_ Herr].
  split; [by apply Hok | by apply (Herr (KeyError "output"))].
Defined.

(** ** More on the parser *)

Section ParserMore.

Context `{V : Validators}.

Lemma build_Forall2 {A : Type} (init : dict -> result A) (items : list json)
    (l : list A) :
  comprehension (build init) items = inr l ->
  Forall2 (fun j a => exists o, j = JObj o /\ init o = inr a) items l.
Proof.
  rewrite comprehension_Forall2. intros HF.
  eapply Forall2_impl; [exact HF|].
  intros j a Hb. by apply build_inr.
Qed.

Lemma build_error {A : Type} (init : dict -> result A) (x : json) (e : exn) :
  (forall o e, init o = inl e -> e = ValidationError) ->
  build init x = inl e -> e = TypeError \/ e = ValidationError.
Proof.
  intros Hinit. destruct x; try (intros [= <-]; by left).
  rewrite build_object. intros H. right. by eapply Hinit.
Qed.

Lemma subscript_error (device : dict) (key : string) (e : exn) :
  subscript device key = inl e -> e = KeyError key /\ dict_get key device = None.
Proof.
  unfold subscript. destruct (dict_get key device); [discriminate|].
  by intros [= <-].
Qed.

Lemma nested_error {A : Type} (init : dict -> result A) (device : dict)
    (key : string) (e : exn) :
  (forall o e, init o = inl e -> e = ValidationError) ->
  In key ["model"; "unit"; "knownInterfaces"; "connections"; "properties"] ->
  (j ← subscript device key; build init j) = inl e -> parse_error device e.
Proof.
  intros Hinit Hkey H. apply bind_inl in H as [H | (j & _ & H)].
  - apply subscript_error in H as [-> Hnone]. right; right. by exists key.
  - apply (build_error _ _ _ Hinit) in H as [-> | ->]; [by left | right; by left].
Qed.

Lemma build_list_parse_error {A : Type} (init : dict -> result A)
    (device : dict) (key : string) (e : exn) :
  (forall o e, init o = inl e -> e = ValidationError) ->
  In key ["model"; "unit"; "knownInterfaces"; "connections"; "properties"] ->
  build_list init device key = inl e -> parse_error device e.
Proof.
  intros Hinit Hkey H. unfold build_list in H.
  apply bind_inl in H as [H | (j & _ & H)].
  { apply subscript_error in H as [-> Hnone]. right; right. by exists key. }
  apply bind_inl in H as [H | (l & _ & H)].
  { apply iterate_error in H as ->. by left. }
  apply (comprehension_error _ (fun e => e = TypeError \/ e = ValidationError))
    in H.
  - destruct H as [-> | ->]; [by left | right; by left].
  - intros x e' _. by apply build_error.
Qed.

Lemma parse_device_inr_lists (device : dict) (d : Device) :
  parse_device device = inr d ->
  build_list Interface_init device "knownInterfaces" = inr (knownInterfaces d)
  /\ build_list Connection_init device "connections" = inr (connections d)
  /\ build_list Property_init device "properties" = inr (properties d).
Proof.
  unfold parse_device. intros H.
  apply bind_inr in H as (m & _ & H).
  apply bind_inr in H as (u & _ & H).
  apply bind_inr in H as (ifs & Hifs & H).
  apply bind_inr in H as (cs & Hcs & H).
  apply bind_inr in H as (ps & Hps & H).
  unfold Device_init in H.
  destruct (required validate_uuid device "deviceID") as [id|]; [|done].
  destruct (required validate_int device "lastChangeRevision") as [rev|]; [|done].
  destruct (required validate_bool device "isAuthority") as [au|]; [|done].
  simpl in H.
  destruct (optional validate_str device "nodeType") as [nt|]; [|done].
  simpl in H.
  destruct (optional validate_str device "friendlyName") as [fn|]; [|done].
  simpl in H.
  destruct (required validate_int device "maxAllowedProperties") as [mx|]; [|done].
  by injection H as <-.
Qed.

(** X15.  [get_devices] returns one device per item of the array, in the
    order of the array, each the parse of its item; it returns nothing
    unless every item is an object that parses. *)
Theorem get_devices_all (items : list json) (ds : list Device) :
  (get_devices items = inr ds
   <-> Forall2 (fun j d => exists o, j = JObj o /\ parse_device o = inr d)
               items ds)
  /\ (get_devices items = inr ds -> length ds = length items).
Proof.
  assert (Hiff : get_devices items = inr ds
                 <-> Forall2 (fun j d => exists o, j = JObj o
                                                   /\ parse_device o = inr d)
                             items ds).
  { unfold get_devices. rewrite comprehension_Forall2.
    split; intros HF; (eapply Forall2_impl; [exact HF|]); intros j d.
    - destruct j; try discriminate. intros Hp. by eexists.
    - by intros (o & -> & Hp). }
  split; [exact Hiff|].
  intros Hget. apply Hiff in Hget. symmetry. by eapply Forall2_length.
Qed.

(** X16.  Each scalar field of a parsed device is the validated value of
    the entry of the same name, and the nested fields are built from the
    entries of the same name. *)
Theorem parse_device_fields (device : dict) (d : Device) :
  parse_device device = inr d ->
  required validate_uuid device "deviceID" = Some (deviceID d)
  /\ required validate_int device "lastChangeRevision"
     = Some (lastChangeRevision d)
  /\ required validate_bool device "isAuthority" = Some (isAuthority d)
  /\ required validate_int device "maxAllowedProperties"
     = Some (maxAllowedProperties d)
  /\ optional validate_str device "nodeType" = Some (nodeType d)
  /\ optional validate_str device "friendlyName" = Some (friendlyName d)
  /\ (exists o, dict_get "model" device = Some (JObj o)
                /\ Model_init o = inr (model d))
  /\ (exists o, dict_get "unit" device = Some (JObj o)
                /\ Unit_init o = inr (unit d))
  /\ build_list Interface_init device "knownInterfaces"
     = inr (knownInterfaces d)
  /\ build_list Connection_init device "connections" = inr (connections d)
  /\ build_list Property_init device "properties" = inr (properties d).
Proof.
  unfold parse_device. intros H.
  apply bind_inr in H as (m & Hm & H).
  apply bind_inr in H as (u & Hu & H).
  apply bind_inr in H as (ifs & Hifs & H).
  apply bind_inr in H as (cs & Hcs & H).
  apply bind_inr in H as (ps & Hps & H).
  apply bind_inr in Hm as (jm & Hjm & Hm).
  apply subscript_inr in Hjm. apply build_inr in Hm as (om & -> & Hm).
  apply bind_inr in Hu as (ju & Hju & Hu).
  apply subscript_inr in Hju. apply build_inr in Hu as (ou & -> & Hu).
  unfold Device_init in H.
  destruct (required validate_uuid device "deviceID") as [id|]; [|done].
  destruct (required validate_int device "lastChangeRevision") as [rev|]; [|done].
  destruct (required validate_bool device "isAuthority") as [au|]; [|done].
  simpl in H.
  destruct (optional validate_str device "nodeType") as [nt|]; [|done].
  simpl in H.
  destruct (optional validate_str device "friendlyName") as [fn|]; [|done].
  simpl in H.
  destruct (required validate_int device "maxAllowedProperties") as [mx|]; [|done].
  injection H as <-. simpl.
  repeat (split; [reflexivity|]).
  split; [by exists om|]. split; [by exists ou|]. done.
Qed.

(** X17.  When the three list entries of a record that parses are
    arrays, the device has one interface, connection and property per
    array element, in the order of the array, each built from its
    element. *)
Theorem parse_device_lists (device : dict) (d : Device)
    (ifs cs ps : list json) :
  parse_device device = inr d ->
  dict_get "knownInterfaces" device = Some (JArr ifs) ->
  dict_get "connections" device = Some (JArr cs) ->
  dict_get "properties" device = Some (JArr ps) ->
  Forall2 (fun j i => exists o, j = JObj o /\ Interface_init o = inr i)
          ifs (knownInterfaces d)
  /\ Forall2 (fun j c => exists o, j = JObj o /\ Connection_init o = inr c)
             cs (connections d)
  /\ Forall2 (fun j p => exists o, j = JObj o /\ Property_init o = inr p)
             ps (properties d)
  /\ length (knownInterfaces d) = length ifs
  /\ length (connections d) = length cs
  /\ length (properties d) = length ps.
Proof.
  intros Hp Hifs Hcs Hps.
  destruct (parse_device_inr_lists device d Hp) as (Hi & Hc & Hpr).
  rewrite (build_list_array _ _ _ _ Hifs) in Hi.
  rewrite (build_list_array _ _ _ _ Hcs) in Hc.
  rewrite (build_list_array _ _ _ _ Hps) in Hpr.
  apply build_Forall2 in Hi. apply build_Forall2 in Hc.
  apply build_Forall2 in Hpr.
  repeat split; try done; symmetry; by eapply Forall2_length.
Qed.

End ParserMore.

Lemma get_devices_all_witness :
  get_devices [JObj Sample.tv_record; JObj Sample.tv_record]
  = inr [Fixtures.tv_parsed; Fixtures.tv_parsed].
Proof.
  apply (get_devices_all [JObj Sample.tv_record; JObj Sample.tv_record]).
  repeat constructor; by eexists.
Defined.

Lemma parse_device_fields_witness :
  optional validate_str Sample.tv_record "friendlyName"
  = Some (friendlyName Fixtures.tv_parsed).
Proof.
  apply (parse_device_fields Sample.tv_record Fixtures.tv_parsed).
  reflexivity.
Defined.

Lemma parse_device_lists_witness :
  length (knownInterfaces Fixtures.tv_parsed) = 1.
Proof.
  apply (parse_device_lists Sample.tv_record Fixtures.tv_parsed
           [Sample.tv_interface]
           [JObj [("macAddress", JStr "AA:BB:CC:DD:EE:FF")]]
           [JObj [("name", JStr "userDeviceName"); ("value", JStr "TV")]]);
    reflexivity.
Defined.

Section ParserEdges.

Context `{V : Validators}.

Lemma dict_get_other (key k : string) (v : json) (device : dict) :
  String.eqb k key = false ->
  dict_get key ((k, v) :: device) = dict_get key device.
Proof. intros Hk. simpl. by rewrite Hk. Qed.

(** X18.  For the two optional fields of the record itself, an entry
    with the value [null] is the same as no entry. *)
Theorem parse_device_null_optional (device : dict) (key : string) :
  In key ["nodeType"; "friendlyName"] ->
  dict_get key device = None ->
  parse_device ((key, JNull) :: device) = parse_device device.
Proof.
  intros Hkey Hnone.
  assert (Hother : forall k, In k ["model"; "unit"; "knownInterfaces";
                                   "connections"; "properties"; "deviceID";
                                   "lastChangeRevision"; "isAuthority";
                                   "maxAllowedProperties"] ->
                   dict_get k ((key, JNull) :: device) = dict_get k device).
  { intros k Hk. apply dict_get_other.
    destruct Hkey as [<- | [<- | []]];
      repeat (destruct Hk as [<- | Hk]; [reflexivity|]); destruct Hk. }
  assert (Hopt : forall k, In k ["nodeType"; "friendlyName"] ->
                   optional validate_str ((key, JNull) :: device) k
                   = optional validate_str device k).
  { intros k Hk. unfold optional.
    destruct (String.eqb key k) eqn:E.
    - apply String.eqb_eq in E. subst k. simpl. rewrite String.eqb_refl.
      by rewrite Hnone.
    - by rewrite dict_get_other. }
  unfold parse_device, build_list, subscript, Device_init, required.
  rewrite !Hother by (simpl; tauto).
  rewrite !Hopt by (simpl; tauto). reflexivity.
Qed.

(** X19.  When a record does not parse, the exception is a
    [ValidationError], a [TypeError], or a [KeyError] naming one of the
    five nested entries, and that entry is missing; never an
    [AttributeError].  A [TypeError] means that a nested entry does not
    have the shape the parser unpacks. *)
Theorem parse_device_exceptions (device : dict) (e : exn) :
  parse_device device = inl e ->
  parse_error device e
  /\ e <> AttributeError
  /\ (e = TypeError -> well_shaped device = false).
Proof.
  intros H.
  assert (Hinit : forall A (x : option A) e', validated x = inl e' ->
                                              e' = ValidationError).
  { intros A x e'. apply validated_error. }
  assert (Hpe : parse_error device e).
  { unfold parse_device in H.
    apply bind_inl in H as [H | (m & _ & H)].
    { apply (nested_error Model_init device "model" e); [|simpl; tauto|exact H].
      intros o e'. apply Hinit. }
    apply bind_inl in H as [H | (u & _ & H)].
    { apply (nested_error Unit_init device "unit" e); [|simpl; tauto|exact H].
      intros o e'. apply Hinit. }
    apply bind_inl in H as [H | (ifs & _ & H)].
    { apply (build_list_parse_error Interface_init device "knownInterfaces" e);
        [|simpl; tauto|exact H].
      intros o e'. apply Hinit. }
    apply bind_inl in H as [H | (cs & _ & H)].
    { apply (build_list_parse_error Connection_init device "connections" e);
        [|simpl; tauto|exact H].
      intros o e'. apply Hinit. }
    apply bind_inl in H as [H | (ps & _ & H)].
    { apply (build_list_parse_error Property_init device "properties" e);
        [|simpl; tauto|exact H].
      intros o e'. apply Hinit. }
    apply Hinit in H as ->. right; by left. }
  split; [exact Hpe|]. split.
  - destruct Hpe as [-> | [-> | (k & -> & _)]]; discriminate.
  - intros ->. destruct (well_shaped device) eqn:Hw; [|done].
    by apply (parse_device_error device TypeError Hw) in H.
Qed.

End ParserEdges.

Lemma parse_device_null_optional_witness :
  parse_device (("friendlyName", JNull) :: Sample.tv_record)
  = parse_device Sample.tv_record.
Proof.
  apply (parse_device_null_optional Sample.tv_record "friendlyName").
  - simpl; tauto.
  - reflexivity.
Defined.

Lemma parse_device_exceptions_witness :
  parse_error Sample.no_model_record (KeyError "model")
  /\ KeyError "model" <> AttributeError
  /\ (KeyError "model" = TypeError -> well_shaped Sample.no_model_record = false).
Proof.
  apply (parse_device_exceptions Sample.no_model_record (KeyError "model")).
  reflexivity.
Defined.

(** ** The printed lines *)

Lemma str_length_app (a b : string) :
  String.length (a ++ b) = String.length a + String.length b.
Proof. induction a as [|c a IH]; simpl; [done | by rewrite IH]. Qed.


Lemma length_slice_to (n : nat) (s : string) :
  String.length (Present.slice_to n s) = Nat.min n (String.length s).
Proof.
  revert s. induction n as [|n IH]; intros [|c s]; simpl; try done.
  by rewrite IH.
Qed.

Lemma label_nonempty (d : Device) : Present.label d <> "".
Proof.
  unfold Present.label. destruct (friendlyName d) as [s|]; [|done].
  destruct s; simpl; done.
Qed.

Lemma label_named (d : Device) :
  name_or_empty d <> "" -> Present.label d = name_or_empty d.
Proof.
  unfold Present.label, name_or_empty.
  destruct (friendlyName d) as [s|]; [|done]. by destruct s.
Qed.

Lemma label_unnamed (d : Device) :
  name_or_empty d = "" -> Present.label d = "Unknown Device".
Proof.
  unfold Present.label, name_or_empty.
  destruct (friendlyName d) as [s|]; [|done]. by intros ->.
Qed.

(** X20.  The MAC column of an online line is never longer than 25
    characters: the joined addresses as they are when they fit, else
    their first 22 characters and three dots. *)
Theorem macs_column_width (st : DeviceStatus) :
  String.length (Present.macs_column st) <= 25
  /\ (String.length (Present.joined_macs st) <= 25 ->
      Present.macs_column st = Present.joined_macs st)
  /\ (25 < String.length (Present.joined_macs st) ->
      Present.macs_column st
      = Present.slice_to 22 (Present.joined_macs st) ++ "..."
      /\ String.length (Present.macs_column st) = 25).
Proof.
  unfold Present.macs_column.
  destruct (25 <? String.length (Present.joined_macs st))%nat eqn:E.
  - apply Nat.ltb_lt in E.
    assert (Hlen : String.length
                     (Present.slice_to 22 (Present.joined_macs st) ++ "...") = 25).
    { rewrite str_length_app, length_slice_to.
      change (String.length "...") with 3. lia. }
    split; [lia|]. split; [lia | done].
  - apply Nat.ltb_ge in E. split; [done|]. split; [done | lia].
Qed.

Lemma macs_column_width_witness :
  Present.macs_column (get_device_status Fixtures.projector Fixtures.both_macs)
  = "AA:BB:CC:DD:EE:FF, 11:...".
Proof.
  destruct (macs_column_width
              (get_device_status Fixtures.projector Fixtures.both_macs))
    as (_ & _ & Hlong).
  destruct Hlong as [Hcol _]; [vm_compute; lia|].
  rewrite Hcol. reflexivity.
Defined.










(** X24.  A device is always printed under a non-empty label: its
    friendly name when it has a non-empty one, else the placeholder.  The
    placeholder is for display only: a device without friendly name is
    never selected by a non-empty name argument. *)
Theorem label_spec (d : Device) :
  Present.label d <> ""
  /\ (name_or_empty d <> "" -> Present.label d = name_or_empty d)
  /\ (name_or_empty d = "" ->
      Present.label d = "Unknown Device"
      /\ forall D n m, n <> "" -> d ∉ filter_devices D (Some n) m).
Proof.
  split; [apply label_nonempty|]. split; [apply label_named|].
  intros Hempty. split; [by apply label_unnamed|].
  intros D n m Hn Hin.
  rewrite filter_devices_name_last in Hin. unfold filter_devices in Hin.
  rewrite (given_nonempty n Hn) in Hin. simpl in Hin.
  apply filter_elem_of in Hin as [_ Hmatch].
  unfold name_matches in Hmatch. rewrite Hempty in Hmatch.
  destruct n; [done | discriminate].
Qed.

Lemma label_spec_witness :
  Present.label (Sample.named_device None []) = "Unknown Device"
  /\ Sample.named_device None []
     ∉ filter_devices [Sample.named_device None []] (Some "unknown") None.
Proof.
  destruct (label_spec (Sample.named_device None [])) as (_ & _ & Hun).
  destruct (Hun eq_refl) as [Hlabel Hnever].
  split; [exact Hlabel | by apply Hnever].
Defined.
